(** * contrib_word_art: word art on a contribution calendar

    A shallow embedding of [scripts/contrib_word_art.py] and the proofs of
    the properties its specification states.

    - Python integers are [Z]; a Python [str] is the list of its code
      points; a list is a [list], indexed the way Python indexes it
      (negative indices count from the end, anything else out of range
      raises [IndexError]).
    - A [dt.date] is its proleptic Gregorian ordinal ([date.toordinal()]):
      1 is 0001-01-01, a Monday, and 3652059 is 9999-12-31.  Adding a
      [timedelta] that leaves this range raises [OverflowError].
    - Exceptions are values of [exn]; code that can raise returns a
      [result].  Code that reads the clock, prints or runs commands is a
      state transformer over [world]. *)

From Stdlib Require Import ZArith Lia.
From Stdlib Require Import Ascii String.
From stdpp Require Import base option list strings gmap pretty sorting.

Local Open Scope Z_scope.

(** ** Python values *)

(** A Python [str]: the sequence of its Unicode code points. *)
Abbreviation pystr := (list N).

(** The [str] denoted by an ASCII literal of the source. *)
Definition text (s : string) : pystr := N_of_ascii <$> list_ascii_of_string s.

(** A one-character literal, as a code point. *)
Definition chr (a : ascii) : N := N_of_ascii a.

(** [str(n)] for an integer. *)
Definition str_of_int (n : Z) : pystr := text (pretty n).

Inductive exn : Type :=
  | IndexError
  | OverflowError
  | OSError
  | CalledProcessError (status : Z)
  | SystemExit (msg : pystr).

Inductive result (A : Type) : Type :=
  | Ok (a : A)
  | Raise (e : exn).
Arguments Ok {A} a.
Arguments Raise {A} e.

#[global] Instance result_ret : MRet result := λ A a, Ok a.
#[global] Instance result_bind : MBind result := λ A B f r,
  match r with
  | Ok a => f a
  | Raise e => Raise e
  end.

(** [for x in xs: s = body(x, s)], stopping at the first exception. *)
Fixpoint for_each {A S : Type} (xs : list A) (body : A → S → result S) (s : S)
  : result S :=
  match xs with
  | [] => Ok s
  | x :: xs' => s' ← body x s; for_each xs' body s'
  end.

(** [range(n)]: empty when [n <= 0]. *)
Definition range (n : Z) : list Z := seqZ 0 n.
Arguments range : simpl never.

(** Truth value of an integer. *)
Definition truthy (n : Z) : bool := negb (n =? 0).

Module PyList.

(** The position an index denotes in a sequence of length [len]. *)
Definition resolve (len i : Z) : result nat :=
  let j := if i <? 0 then i + len else i in
  if (0 <=? j) && (j <? len) then Ok (Z.to_nat j) else Raise IndexError.

(** [l[i]] *)
Definition getitem {A : Type} (l : list A) (i : Z) : result A :=
  k ← resolve (Z.of_nat (length l)) i;
  match l !! k with
  | Some a => Ok a
  | None => Raise IndexError
  end.

(** [l[i] = v] *)
Definition setitem {A : Type} (l : list A) (i : Z) (v : A) : result (list A) :=
  k ← resolve (Z.of_nat (length l)) i;
  Ok (<[k := v]> l).

End PyList.

(** [s[i]] for a string literal of the source. *)
Definition str_getitem (s : string) (i : Z) : result ascii :=
  PyList.getitem (list_ascii_of_string s) i.

(** ** Dates *)

Record date : Type := Date { toordinal : Z }.

Record timedelta : Type := Timedelta { days : Z }.

Definition MAXORDINAL : Z := 3652059.

(** Every [dt.date] object lies between [date.min] and [date.max]. *)
Definition valid_date (d : date) : Prop := 1 ≤ toordinal d ≤ MAXORDINAL.

Module dt.

(** [dt.timedelta(days=n)] and [dt.timedelta(weeks=n)] *)
Definition timedelta_days (n : Z) : timedelta := Timedelta n.
Definition timedelta_weeks (n : Z) : timedelta := Timedelta (7 * n).

(** [d + t] *)
Definition add (d : date) (t : timedelta) : result date :=
  let o := toordinal d + days t in
  if (0 <? o) && (o <=? MAXORDINAL) then Ok (Date o) else Raise OverflowError.

(** [d - t] *)
Definition sub (d : date) (t : timedelta) : result date :=
  add d (Timedelta (- days t)).

(** [a - b] for two dates *)
Definition diff (a b : date) : timedelta :=
  Timedelta (toordinal a - toordinal b).

(** [d.weekday()]: Monday is 0, Sunday is 6. *)
Definition weekday (d : date) : Z := (toordinal d + 6) mod 7.

End dt.

(** ** The anchor *)

Definition sunday_of_current_week (today : date) : result date :=
  let days_since_sun := (dt.weekday today + 1) mod 7 in
  dt.sub today (dt.timedelta_days days_since_sun).

Definition leftmost_sunday (today : date) : result date :=
  s ← sunday_of_current_week today;
  dt.sub s (dt.timedelta_weeks 51).

(** ** The font *)

(** A glyph: seven strings of five characters, ['1'] = filled. *)
Abbreviation glyph := (list string).

Definition glyph_N : glyph :=
  ["10001"; "11001"; "10101"; "10011"; "10001"; "10001"; "10001"]%string.
Definition glyph_E : glyph :=
  ["11111"; "10000"; "11110"; "10000"; "11111"; "00000"; "00000"]%string.
Definition glyph_R : glyph :=
  ["11110"; "10001"; "11110"; "10100"; "10010"; "10001"; "00000"]%string.
Definition glyph_D : glyph :=
  ["11110"; "10001"; "10001"; "10001"; "11110"; "00000"; "00000"]%string.
Definition glyph_L : glyph :=
  ["10000"; "10000"; "10000"; "10000"; "11111"; "00000"; "00000"]%string.
Definition glyph_I : glyph :=
  ["11111"; "00100"; "00100"; "00100"; "11111"; "00000"; "00000"]%string.

Definition FONT_5x7 : gmap N glyph :=
  list_to_map
    [ (chr "N", glyph_N); (chr "E", glyph_E); (chr "R", glyph_R);
      (chr "D", glyph_D); (chr "L", glyph_L); (chr "I", glyph_I) ].

(** ** The compositor *)

(** The pixel matrix, a list of rows. *)
Abbreviation canvas := (list (list Z)).

(** [[[0 for _ in range(cols)] for _ in range(rows)]] *)
Definition blank_canvas (rows cols : Z) : canvas :=
  (λ _, (λ _, 0) <$> range cols) <$> range rows.

(** [canvas[r][i] = v]: the row object [canvas[r]] is updated in place. *)
Definition write_cell (cv : canvas) (r i v : Z) : result canvas :=
  row ← PyList.getitem cv r;
  row' ← PyList.setitem row i v;
  PyList.setitem cv r row'.

(** The canvas being drawn, with the assignments [canvas[r][i] = 1]
    executed so far (oldest first); the second component is only read by
    the proofs. *)
Record painting : Type := Painting {
  cells : canvas;
  written : list (Z * Z)
}.

Definition paint (p : painting) (r i : Z) : result painting :=
  cv ← write_cell (cells p) r i 1;
  Ok (Painting cv (written p ++ [(r, i)])).

Section Compositor.

(** [str.upper] *)
Variable upper : pystr → pystr.

(** One round of the measuring loop: [(width, letters)]. *)
Definition measure (spacing : Z) (st : Z * list glyph) (ch : N)
  : Z * list glyph :=
  match FONT_5x7 !! ch with
  | None => st
  | Some g => (st.1 + 5 + spacing, st.2 ++ [g])
  end.

(** The body of the innermost loop, for one pixel of one glyph. *)
Definition stamp_pixel (g : glyph) (c cols r x : Z) (p : painting)
  : result painting :=
  line ← PyList.getitem g r;
  px ← str_getitem line x;
  if bool_decide (px = "1"%char) && ((0 <=? c + x) && (c + x <? cols))
  then paint p r (c + x)
  else Ok p.

Definition stamp_glyph (g : glyph) (c cols : Z) (p : painting)
  : result painting :=
  for_each (range 7) (λ r, for_each (range 5) (λ x, stamp_pixel g c cols r x)) p.

Definition compose_word_traced (word : pystr) (total_columns spacing : Z)
  : result painting :=
  let rows := 7 in
  let cols := total_columns in
  let canvas := blank_canvas rows cols in
  let '(width, letters) := foldl (measure spacing) (0, []) (upper word) in
  let width := if bool_decide (letters = []) then width else width - spacing in
  let start_col := Z.max 0 ((cols - width) `div` 2) in
  '(p, _) ← for_each letters
      (λ g '(p, c), p' ← stamp_glyph g c cols p; Ok (p', c + (5 + spacing)))
      (Painting canvas [], start_col);
  Ok p.

Definition compose_word (word : pystr) (total_columns spacing : Z)
  : result canvas :=
  p ← compose_word_traced word total_columns spacing;
  Ok (cells p).

End Compositor.

(** [str.upper] on ASCII text. *)
Definition ascii_upper (c : N) : N :=
  if ((97 <=? c) && (c <=? 122))%N then (c - 32)%N else c.

(** What is used of [str.upper]: on a string of ASCII characters it
    replaces the letters a-z by A-Z and nothing else. *)
Definition upper_spec (upper : pystr → pystr) : Prop :=
  ∀ s, Forall (λ c, (c < 128)%N) s → upper s = ascii_upper <$> s.

(** ** The planner's loops *)

(** The body of the inner loop: one cell of the column whose Sunday is
    [col_sun]. *)
Definition plan_cell (canvas : canvas) (col_sun : date) (col row : Z)
    (dates : list date) : result (list date) :=
  line ← PyList.getitem canvas row;
  px ← PyList.getitem line col;
  if truthy px
  then d ← dt.add col_sun (dt.timedelta_days row); Ok (dates ++ [d])
  else Ok dates.

(** The body of the outer loop: one column. *)
Definition plan_column (canvas : canvas) (start : date) (col : Z)
    (dates : list date) : result (list date) :=
  col_sun ← dt.add start (dt.timedelta_weeks col);
  for_each (range 7) (plan_cell canvas col_sun col) dates.

(** ** The program and its surroundings *)

(** The parsed command line. [email] is [None] when the option is absent. *)
Record args : Type := Args {
  word : pystr;
  intensity : Z;
  apply : bool;
  push : bool;
  name : pystr;
  email : option pystr;
  file : pystr
}.

(** [x or y] on values that are a [str] or [None]. *)
Definition py_or (x y : option pystr) : option pystr :=
  match x with
  | Some (_ :: _) => x
  | _ => y
  end.

(** [not x] on a value that is a [str] or [None]. *)
Definition py_not (x : option pystr) : bool :=
  match x with
  | Some (_ :: _) => false
  | _ => true
  end.

(** The exit status of the interpreter: an exception that reaches the top
    level, [SystemExit] with a message included, ends the process with 1. *)
Definition exit_status (r : result ()) : Z :=
  match r with
  | Ok _ => 0
  | Raise _ => 1
  end.

Definition dquote : pystr := [34%N].
Definition newline : pystr := [10%N].

Section Program.

(** The working tree and the repository, as the commands see them. *)
Context {tree : Type}.

Record world : Type := World {
  clock : date;
  environ : gmap pystr pystr;
  stdout : list pystr;
  commands : list pystr;
  worktree : tree
}.

(** A computation that may read and change the world, and may raise;
    what was done before an exception stays done. *)
Definition M (A : Type) : Type := world → result A * world.

#[local] Instance M_ret : MRet M := λ A a w, (Ok a, w).
#[local] Instance M_bind : MBind M := λ A B f m w,
  match m w with
  | (Ok a, w') => f a w'
  | (Raise e, w') => (Raise e, w')
  end.

Definition lift {A : Type} (r : result A) : M A := λ w, (r, w).

(** [for x in xs: body(x)] *)
Fixpoint for_each_M {A : Type} (xs : list A) (body : A → M ()) : M () :=
  match xs with
  | [] => mret ()
  | x :: xs' => _ ← body x; for_each_M xs' body
  end.

(** [dt.date.today()] *)
Definition date_today : M date := λ w, (Ok (clock w), w).

(** [os.environ.get(key)] *)
Definition environ_get (key : pystr) : M (option pystr) :=
  λ w, (Ok (environ w !! key), w).

(** [print(line)] *)
Definition print (line : pystr) : M () := λ w,
  (Ok (), World (clock w) (environ w) (stdout w ++ [line]) (commands w)
                (worktree w)).

(** *** The planner *)

Definition plan_dates (canvas : canvas) : M (list date) :=
  today ← date_today;
  start ← lift (leftmost_sunday today);
  lift (for_each (range 52) (plan_column canvas start) []).

(** *** The commit creator *)

Variable upper : pystr → pystr.

(** [date.isoformat()] and [Path(p).as_posix()] *)
Variable isoformat : date → pystr.
Variable as_posix : pystr → pystr.

(** The paths and the files of [pathlib], as far as the program uses
    them: [Path.parent], [Path.mkdir(parents=True, exist_ok=True)],
    [Path.open("a", encoding="utf-8")], and [write] and [close] of the
    file opened at a path.  The last four act on the working tree; one
    that raises leaves the tree as it is at that moment. *)
Record pathlib : Type := Pathlib {
  path_parent : pystr → pystr;
  path_mkdir : pystr → tree → result () * tree;
  path_open : pystr → tree → result () * tree;
  file_write : pystr → pystr → tree → result () * tree;
  file_close : pystr → tree → result () * tree
}.
Variable files : pathlib.

(** The shell: a command and its environment give an exit status and
    change the working tree. *)
Variable shell : pystr → gmap pystr pystr → tree → Z * tree.

(** [subprocess.check_call(cmd, shell=True, env=env)] *)
Definition run (cmd : pystr) (env : option (gmap pystr pystr)) : M Z := λ w,
  let '(status, t) := shell cmd (default (environ w) env) (worktree w) in
  let w' := World (clock w) (environ w) (stdout w) (commands w ++ [cmd]) t in
  if status =? 0 then (Ok 0, w') else (Raise (CalledProcessError status), w').

(** An operation on the working tree of the world. *)
Definition on_tree (op : tree → result () * tree) : M () := λ w,
  let '(r, t) := op (worktree w) in
  (r, World (clock w) (environ w) (stdout w) (commands w) t).

(** [file_path.parent.mkdir(parents=True, exist_ok=True)], then
    [with file_path.open("a", encoding="utf-8") as f: f.write(text)].
    The file is closed when the block is left, by an exception too, and
    an exception raised by closing replaces the one of the block. *)
Definition write_log (path text : pystr) : M () :=
  _ ← on_tree (path_mkdir files (path_parent files path));
  _ ← on_tree (path_open files path);
  ((λ w,
      match on_tree (file_write files path text) w with
      | (Ok _, w1) => on_tree (file_close files path) w1
      | (Raise e, w1) =>
          match on_tree (file_close files path) w1 with
          | (Ok _, w2) => (Raise e, w2)
          | (Raise e1, w2) => (Raise e1, w2)
          end
      end) : M ()).

Definition make_commit_for_date (the_date : date)
    (author_name author_email message file_path : pystr) (allow_empty : bool)
  : M () :=
  _ ← write_log file_path
        (isoformat the_date ++ text " - " ++ message ++ newline);
  _ ← run (text "git add " ++ as_posix file_path) None;
  env ← (λ w, (Ok (environ w), w));
  let date_str := isoformat the_date ++ text " 12:00:00 +0000" in
  let env :=
    <[text "GIT_COMMITTER_EMAIL" := author_email]>
    (<[text "GIT_COMMITTER_NAME" := author_name]>
    (<[text "GIT_AUTHOR_EMAIL" := author_email]>
    (<[text "GIT_AUTHOR_NAME" := author_name]>
    (<[text "GIT_COMMITTER_DATE" := date_str]>
    (<[text "GIT_AUTHOR_DATE" := date_str]> env))))) in
  let allow := if allow_empty then text " --allow-empty" else [] in
  _ ← run (text "git commit -m " ++ dquote ++ text "contrib-art: " ++ message
           ++ text " (" ++ isoformat the_date ++ text ")" ++ dquote ++ allow)
          (Some env);
  mret ().

(** *** The entry point, after the command line is parsed *)

Definition main (a : args) : M () :=
  canvas ← lift (compose_word upper (word a) 52 1);
  dates ← plan_dates canvas;
  let n := Z.of_nat (length dates) in
  _ ← print (text "Pixels lit: " ++ str_of_int n
             ++ text "; total commits planned: " ++ str_of_int (n * intensity a));
  if negb (apply a) then mret () else
  from_env ← environ_get (text "GIT_AUTHOR_EMAIL");
  let author_email := py_or (py_or (email a) from_env) (Some []) in
  if py_not author_email
  then lift (Raise (SystemExit (text "--email is required (or set GIT_AUTHOR_EMAIL)")))
  else
  _ ← run (text "git rev-parse --is-inside-work-tree >NUL 2>&1") None;
  let path := file a in
  _ ← for_each_M dates (λ d,
        for_each_M (range (intensity a)) (λ k,
          make_commit_for_date d (name a) (default [] author_email)
            (word a ++ text " pixel") path false));
  if push a then _ ← run (text "git push") None; mret () else mret ().

End Program.

Arguments world : clear implicits.
Arguments M : clear implicits.
Arguments pathlib : clear implicits.

(** * Vocabulary of the specification *)

Definition is_sunday (d : date) : Prop := dt.weekday d = 6.

(** A grid of [rows] rows of [cols] entries each. *)
Definition is_grid (rows cols : Z) (cv : canvas) : Prop :=
  Z.of_nat (length cv) = rows ∧
  Forall (λ line, Z.of_nat (length line) = cols) cv.

(** The entry of a grid at a row and a column that are not negative
    ([0] where the grid has none). *)
Definition pixel (cv : canvas) (row col : Z) : Z :=
  match cv !! Z.to_nat row with
  | Some line => default 0 (line !! Z.to_nat col)
  | None => 0
  end.

(** A cell is a pair (column, row); it is lit when its entry is true. *)
Definition lit (cv : canvas) (c : Z * Z) : bool := truthy (pixel cv c.2 c.1).

(** The number of lit cells, counted row by row. *)
Definition lit_count (cv : canvas) : nat :=
  sum_list_with (λ line, length (filter (λ px, truthy px) line)) cv.

(** The cells of the 7 x 52 grid, column by column, and the lit ones. *)
Definition column_cells (col : Z) : list (Z * Z) :=
  (λ row, (col, row)) <$> range 7.
Definition all_cells : list (Z * Z) := range 52 ≫= column_cells.
Definition lit_cells (cv : canvas) : list (Z * Z) :=
  filter (λ c, lit cv c) all_cells.

(** The day of a cell: [anchor + column weeks + row days]. *)
Definition cell_date (anchor : date) (c : Z * Z) : date :=
  Date (toordinal anchor + 7 * c.1 + c.2).

(** The cell of a day: [d = (date - anchor).days], then [(d // 7, d % 7)]. *)
Definition cell_of_date (anchor d : date) : Z * Z :=
  let k := days (dt.diff d anchor) in (k `div` 7, k `mod` 7).

(** Every date is on or before all the later ones. *)
Definition chronological (dates : list date) : Prop :=
  StronglySorted (λ a b, toordinal a ≤ toordinal b) dates.

(** The position of a cell in the column by column order. *)
Definition cell_index (c : Z * Z) : Z := 7 * c.1 + c.2.

(** One entry of a row, as a count. *)
Definition bit (line : list Z) (col : Z) : nat :=
  if truthy (default 0 (line !! Z.to_nat col)) then 1%nat else 0%nat.

(** The dates of the clock for which every day of the 52 displayed weeks
    is a [dt.date]: 0001-12-30 to 9999-12-25.  [plan_dates] reads its date
    from the clock; before this range it has no anchor, and after it the
    last Saturday of the display is no date. *)
Definition displayable (today : date) : Prop :=
  364 ≤ toordinal today ≤ MAXORDINAL - 6.

(** The entries of a grid are 0 or 1. *)
Definition binary (cv : canvas) : Prop :=
  Forall (Forall (λ px, px = 0 ∨ px = 1)) cv.

(** A pair (row, index) names a cell of the grid. *)
Definition in_grid (rows cols : Z) (c : Z * Z) : Prop :=
  0 ≤ c.1 < rows ∧ 0 ≤ c.2 < cols.

(** Seven lines of five characters. *)
Definition well_formed (g : glyph) : Prop :=
  length g = 7%nat ∧ Forall (λ line, String.length line = 5%nat) g.

(** What the drawing loops keep true of the canvas and of the
    assignments they have executed. *)
Definition painted (cols : Z) (p : painting) : Prop :=
  is_grid 7 cols (cells p) ∧ binary (cells p) ∧
  Forall (in_grid 7 cols) (written p).

(** The bitmap of a glyph line, and of a glyph placed at a start column
    of an otherwise unlit canvas. *)
Definition glyph_row (line : string) : list Z :=
  (λ a, if bool_decide (a = "1"%char) then 1 else 0) <$> list_ascii_of_string line.

Definition place_glyph (g : glyph) (start cols : Z) : canvas :=
  (λ line, replicate (Z.to_nat start) 0 ++ glyph_row line
             ++ replicate (Z.to_nat (cols - start - 5)) 0) <$> g.

(** The letters of the font, in either case. *)
Definition supported_letters : list N :=
  chr <$> ["N"; "E"; "R"; "D"; "L"; "I"; "n"; "e"; "r"; "d"; "l"; "i"]%char.

(** [str.upper] restricted to ASCII text, to run the compositor. *)
Definition upper_ascii (s : pystr) : pystr := ascii_upper <$> s.

(** The five entries of a row in the centred slot, columns 23 to 27. *)
Definition slot_row (cv : canvas) (row : Z) : list Z :=
  pixel cv row <$> [23; 24; 25; 26; 27].

Definition all_lit : list Z := [1; 1; 1; 1; 1].
Definition stem : list Z := [0; 0; 1; 0; 0].
Definition unlit : list Z := [0; 0; 0; 0; 0].

(** The lit cells of the letter I, as (column, row), column by column. *)
Definition cells_of_I : list (Z * Z) :=
  [(23, 0); (23, 4); (24, 0); (24, 4);
   (25, 0); (25, 1); (25, 2); (25, 3); (25, 4);
   (26, 0); (26, 4); (27, 0); (27, 4)].

(** The letter I as the specification words it: the first, the third and
    the last row of the slot are fully lit. *)
Definition I_as_described (cv : canvas) : Prop :=
  slot_row cv 0 = all_lit ∧ slot_row cv 2 = all_lit ∧ slot_row cv 6 = all_lit.

(** The line the program prints. *)
Definition report_line (lit_cells commits : Z) : pystr :=
  text "Pixels lit: " ++ str_of_int lit_cells
    ++ text "; total commits planned: " ++ str_of_int commits.

(** An author email that is absent or empty. *)
Definition email_missing (value : option pystr) : Prop :=
  value = None ∨ value = Some [].

Definition email_required : pystr :=
  text "--email is required (or set GIT_AUTHOR_EMAIL)".

(** The world after a run that only printed one line. *)
Definition printed {tree : Type} (w : world tree) (line : pystr) : world tree :=
  World (clock w) (environ w) (stdout w ++ [line]) (commands w) (worktree w).

(** ** Sample inputs *)

(** Tuesday 2026-11-03 and Saturday 2026-11-07, with nothing else in the
    world. *)
Definition sample_world : world () := World (Date 739923) ∅ [] [] ().
Definition saturday_world : world () := World (Date 739927) ∅ [] [] ().

(** The same Tuesday in a world with an environment and a history. *)
Definition noisy_world : world () :=
  World (Date 739923) {[ text "HOME" := text "/home/nerdlin" ]} [text "hello"]
        [text "ls"] ().

(** The last day of [dt.date], a Friday. *)
Definition last_world : world () := World (Date MAXORDINAL) ∅ [] [] ().

(** A canvas with its first and its last cell lit. *)
Definition sample_canvas : canvas :=
  <[6%nat := replicate 51 0 ++ [1]]>
    (<[0%nat := 1 :: replicate 51 0]> (blank_canvas 7 52)).

(** A repository that counts the commands it has run, stand-ins for
    [isoformat] and for the log file, and three command lines: applying
    without an email, a dry run, and applying with an email. *)
Definition counting_shell (cmd : pystr) (env : gmap pystr pystr) (n : nat)
  : Z * nat := (0, S n).
Definition ordinal_format (d : date) : pystr := str_of_int (toordinal d).
Definition keep_text : pathlib nat :=
  {| path_parent := id;
     path_mkdir := λ _ n, (Ok (), n);
     path_open := λ _ n, (Ok (), n);
     file_write := λ _ _ n, (Ok (), n);
     file_close := λ _ n, (Ok (), n) |}.
Definition fresh_world : world nat := World (Date 739923) ∅ [] [] 0%nat.
Definition apply_args : args :=
  Args (text "NERDLIN") 6 true false (text "Nerdlin") None (text "art/log.txt").
Definition dry_args : args :=
  Args (text "NERDLIN") 6 false false (text "Nerdlin") None (text "art/log.txt").
Definition signed_args : args :=
  Args (text "I") 1 true true (text "Nerdlin")
       (Some (text "nerdlin@users.noreply.github.com")) (text "art/log.txt").

(** ** Vocabulary of the further properties *)

(** The part of a canvas the planner reads: the first 52 entries of the
    first 7 rows. *)
Definition window (cv : canvas) : canvas := take 52 <$> take 7 cv.

(** A canvas that has the 7 rows of 52 entries the planner reads. *)
Definition covers (cv : canvas) : Prop :=
  (7 ≤ length cv)%nat ∧ Forall (λ line, (52 ≤ length line)%nat) (take 7 cv).

(** A date some days later. *)
Definition later (n : Z) (d : date) : date := Date (toordinal d + n).

(** The glyphs of the characters that the font has, in order. *)
Definition letters_of (s : pystr) : list glyph := omap (λ ch, FONT_5x7 !! ch) s.

(** The width of a word of [n] letters: five columns a letter, and the
    spacing between two letters. *)
Definition word_width (spacing : Z) (n : nat) : Z :=
  match n with
  | O => 0
  | S m => 5 * Z.of_nat n + spacing * Z.of_nat m
  end.

Definition start_column (cols spacing : Z) (n : nat) : Z :=
  Z.max 0 ((cols - word_width spacing n) `div` 2).

(** The pixel of a glyph at a row and a column of the glyph. *)
Definition glyph_bit (g : glyph) (r x : Z) : bool :=
  match g !! Z.to_nat r with
  | Some line =>
      match list_ascii_of_string line !! Z.to_nat x with
      | Some px => bool_decide (px = "1"%char)
      | None => false
      end
  | None => false
  end.

(** A lit cell of the canvas being drawn. *)
Definition on (cols : Z) (p : painting) (t : Z * Z) : Prop :=
  in_grid 7 cols t ∧ pixel (cells p) t.1 t.2 = 1.

(** The cell at row [r] and column [i] is under a set pixel of a letter
    of a word whose first letter starts at column [c]: letter [k] starts
    [k * (5 + spacing)] columns further. *)
Definition stamped (letters : list glyph) (c spacing r i : Z) : Prop :=
  ∃ (k : nat) (g : glyph) (x : Z),
    letters !! k = Some g ∧ 0 ≤ x < 5 ∧
    i = c + Z.of_nat k * (5 + spacing) + x ∧ glyph_bit g r x.

(** A character of the font. *)
Definition supported (ch : N) : Prop := is_Some (FONT_5x7 !! ch).

(** The commands of the program. *)
Definition check_cmd : pystr :=
  text "git rev-parse --is-inside-work-tree >NUL 2>&1".
Definition push_cmd : pystr := text "git push".
Definition add_cmd (as_posix : pystr → pystr) (path : pystr) : pystr :=
  text "git add " ++ as_posix path.
Definition commit_cmd (isoformat : date → pystr) (message : pystr) (d : date)
  : pystr :=
  text "git commit -m " ++ dquote ++ text "contrib-art: " ++ message
    ++ text " (" ++ isoformat d ++ text ")" ++ dquote.

(** The line appended to the log file for a commit. *)
Definition log_line (isoformat : date → pystr) (message : pystr) (d : date)
  : pystr :=
  isoformat d ++ text " - " ++ message ++ newline.

(** The time of day of every commit: noon, UTC. *)
Definition noon (isoformat : date → pystr) (d : date) : pystr :=
  isoformat d ++ text " 12:00:00 +0000".

(** The six variables a commit overrides. *)
Definition commit_variables : list pystr :=
  [ text "GIT_AUTHOR_DATE"; text "GIT_COMMITTER_DATE";
    text "GIT_AUTHOR_NAME"; text "GIT_AUTHOR_EMAIL";
    text "GIT_COMMITTER_NAME"; text "GIT_COMMITTER_EMAIL" ].

(** The author email of a run: [--email], or else [GIT_AUTHOR_EMAIL]. *)
Definition author_of {tree : Type} (a : args) (w : world tree) : option pystr :=
  py_or (email a) (environ w !! text "GIT_AUTHOR_EMAIL").

(** The message of the commits of a run. *)
Definition message_of (a : args) : pystr := word a ++ text " pixel".

(** The environment of [git commit]: the environment of the process
    with the six variables overridden. *)
Definition commit_env (name email date_str : pystr) (env : gmap pystr pystr)
  : gmap pystr pystr :=
  <[text "GIT_COMMITTER_EMAIL" := email]>
  (<[text "GIT_COMMITTER_NAME" := name]>
  (<[text "GIT_AUTHOR_EMAIL" := email]>
  (<[text "GIT_AUTHOR_NAME" := name]>
  (<[text "GIT_COMMITTER_DATE" := date_str]>
  (<[text "GIT_AUTHOR_DATE" := date_str]> env))))).

(** The steps by which a run acts on the working tree: four operations
    on the log file, and the commands given to the shell, each with its
    environment. *)
Inductive step : Type :=
| Mkdir (path : pystr)
| Open (path : pystr)
| Write (path text : pystr)
| Close (path : pystr)
| Command (cmd : pystr) (env : gmap pystr pystr).

(** The commands among some steps, in order. *)
Definition command_of (s : step) : list pystr :=
  match s with
  | Command cmd _ => [cmd]
  | _ => []
  end.
Definition commands_of (steps : list step) : list pystr :=
  steps ≫= command_of.

(** What a step does to a working tree.  A command whose status is not 0
    fails with that status. *)
Definition step_outcome {tree : Type} (files : pathlib tree)
    (shell : pystr → gmap pystr pystr → tree → Z * tree)
    (s : step) (t : tree) : result () * tree :=
  match s with
  | Mkdir path => path_mkdir files path t
  | Open path => path_open files path t
  | Write path line => file_write files path line t
  | Close path => file_close files path t
  | Command cmd env =>
      let '(status, t1) := shell cmd env t in
      (if status =? 0 then Ok () else Raise (CalledProcessError status), t1)
  end.

(** Steps that all succeed, one after the other, and take the working
    tree from [t] to [t']. *)
Fixpoint performs {tree : Type} (files : pathlib tree)
    (shell : pystr → gmap pystr pystr → tree → Z * tree)
    (steps : list step) (t t' : tree) : Prop :=
  match steps with
  | [] => t' = t
  | s :: rest =>
      ∃ t1, step_outcome files shell s t = (Ok (), t1) ∧
            performs files shell rest t1 t'
  end.

(** The outcome of a run from the world [w] that has performed the steps
    [before] and whose next step [s] has raised [e] and left the tree
    [t]: the exception ends the run, and no further step is performed.
    There is one thing still done: a file that is being written is
    closed, and an exception of that replaces [e]. *)
Definition stopped_at {tree : Type} (files : pathlib tree) (w : world tree)
    (before : list step) (s : step) (e : exn) (t : tree)
  : result () * world tree :=
  match s with
  | Write path _ =>
      let '(r, t1) := file_close files path t in
      (match r with Ok _ => Raise e | Raise e1 => Raise e1 end,
       World (clock w) (environ w) (stdout w)
             (commands w ++ commands_of before) t1)
  | _ =>
      (Raise e,
       World (clock w) (environ w) (stdout w)
             (commands w ++ commands_of (before ++ [s])) t)
  end.

(** The steps of one commit, in a process with the environment [env]. *)
Definition commit_steps {tree : Type} (isoformat : date → pystr)
    (as_posix : pystr → pystr) (files : pathlib tree) (d : date)
    (name email message path : pystr) (allow : bool) (env : gmap pystr pystr)
  : list step :=
  [ Mkdir (path_parent files path); Open path;
    Write path (log_line isoformat message d); Close path;
    Command (add_cmd as_posix path) env;
    Command (commit_cmd isoformat message d
               ++ (if allow then text " --allow-empty" else []))
            (commit_env name email (noon isoformat d) env) ].

(** The steps of a run with [--apply], after the report: the check of
    the repository, [intensity] commits for each date, and the push. *)
Definition script {tree : Type} (isoformat : date → pystr)
    (as_posix : pystr → pystr) (files : pathlib tree) (a : args)
    (author : pystr) (env : gmap pystr pystr) (dates : list date)
  : list step :=
  Command check_cmd env ::
  (dates ≫= λ d, range (intensity a) ≫= λ _,
     commit_steps isoformat as_posix files d (name a) author (message_of a)
                  (file a) false env)
  ++ (if push a then [Command push_cmd env] else []).

(** Performing steps in order up to the first that fails: the result,
    the commands given to the shell, and the tree that is left. *)
Fixpoint replay {tree : Type} (files : pathlib tree)
    (shell : pystr → gmap pystr pystr → tree → Z * tree)
    (steps : list step) (t : tree) : result () * (list pystr * tree) :=
  match steps with
  | [] => (Ok (), ([], t))
  | s :: rest =>
      match step_outcome files shell s t with
      | (Ok _, t1) =>
          let '(r, (cmds, t2)) := replay files shell rest t1 in
          (r, (command_of s ++ cmds, t2))
      | (Raise e, t1) =>
          match s with
          | Write path _ =>
              let '(r, t2) := file_close files path t1 in
              (match r with Ok _ => Raise e | Raise e1 => Raise e1 end,
               ([], t2))
          | _ => (Raise e, (command_of s, t1))
          end
      end
  end.

(** The world after some commands have been run and have left a tree. *)
Definition finish {tree : Type} (w : world tree)
    (out : result () * (list pystr * tree)) : result () * world tree :=
  (out.1,
   World (clock w) (environ w) (stdout w) (commands w ++ out.2.1) out.2.2).

(** ** Further sample inputs *)

Definition short_canvas : canvas := replicate 7 (replicate 51 0).
Definition wide_canvas : canvas := replicate 8 (replicate 60 1).
Definition next_week_world : world () := World (Date 739930) ∅ [] [] ().

Definition sample_author : pystr := text "nerdlin@users.noreply.github.com".

(** A shell whose commands all fail with status 128. *)
Definition failing_shell (cmd : pystr) (env : gmap pystr pystr) (n : nat)
  : Z * nat := (128, S n).

(** A file system in which the directory of the log is created, which
    changes the tree, and the log cannot be opened. *)
Definition locked_files : pathlib nat :=
  {| path_parent := id;
     path_mkdir := λ _ n, (Ok (), S n);
     path_open := λ _ n, (Raise OSError, n);
     file_write := λ _ _ n, (Ok (), n);
     file_close := λ _ n, (Ok (), n) |}.

(** A shell in which [git push] fails and every other command succeeds. *)
Definition offline_shell (cmd : pystr) (env : gmap pystr pystr) (n : nat)
  : Z * nat :=
  (if bool_decide (cmd = push_cmd) then 1 else 0, S n).

Definition idle_args : args :=
  {| word := text "NERDLIN"; intensity := 0; apply := true; push := true;
     name := text "Nerdlin"; email := Some sample_author;
     file := text "art/log.txt" |}.

(** * Properties *)

(** ** Exceptions and loops *)

Lemma fmap_const_replicate {A B : Type} (c : B) (l : list A) :
  (λ _, c) <$> l = replicate (length l) c.
Proof. induction l as [|x l IH]; [done|]. cbn. by rewrite IH. Qed.

Lemma bind_Ok_inv {A B : Type} (r : result A) (f : A → result B) (b : B) :
  r ≫= f = Ok b → ∃ a, r = Ok a ∧ f a = Ok b.
Proof. destruct r as [a|e]; simpl; [eauto | discriminate]. Qed.

(** A loop whose body keeps an invariant keeps it, when it ends normally. *)
Lemma for_each_invariant {A S : Type} (I : S → Prop) (Q : A → Prop)
    (xs : list A) (body : A → S → result S) :
  Forall Q xs →
  (∀ x s s', Q x → I s → body x s = Ok s' → I s') →
  ∀ s s', I s → for_each xs body s = Ok s' → I s'.
Proof.
  intros HQ Hbody. induction HQ as [|x xs Hx _ IH]; intros s s' Hs; simpl.
  - by intros [= <-].
  - intros (s1 & H1 & H2)%bind_Ok_inv. eauto.
Qed.

(** A loop whose body cannot raise under an invariant ends normally. *)
Lemma for_each_total {A S : Type} (I : S → Prop) (Q : A → Prop)
    (xs : list A) (body : A → S → result S) :
  Forall Q xs →
  (∀ x s, Q x → I s → ∃ s', body x s = Ok s' ∧ I s') →
  ∀ s, I s → ∃ s', for_each xs body s = Ok s' ∧ I s'.
Proof.
  intros HQ Hbody. induction HQ as [|x xs Hx _ IH]; intros s Hs; simpl.
  - eauto.
  - destruct (Hbody x s Hx Hs) as (s1 & -> & Hs1). simpl. eauto.
Qed.

Lemma range_bounds (n : Z) : Forall (λ i, 0 ≤ i < n) (range n).
Proof.
  apply Forall_forall. intros i Hi. unfold range in Hi.
  apply elem_of_seqZ in Hi. lia.
Qed.

(** ** Dates *)

Lemma add_Ok_inv d t d' :
  dt.add d t = Ok d' →
  toordinal d' = toordinal d + days t ∧ valid_date d'.
Proof.
  unfold dt.add, valid_date.
  destruct (0 <? toordinal d + days t) eqn:H1; simpl; [|discriminate].
  destruct (toordinal d + days t <=? MAXORDINAL) eqn:H2; simpl; [|discriminate].
  intros [= <-]. simpl. lia.
Qed.

Lemma add_Ok d t :
  1 ≤ toordinal d + days t ≤ MAXORDINAL →
  dt.add d t = Ok (Date (toordinal d + days t)).
Proof.
  intros H. unfold dt.add.
  destruct (Z.ltb_spec 0 (toordinal d + days t)); [|lia].
  destruct (Z.leb_spec (toordinal d + days t) MAXORDINAL); [done|lia].
Qed.

(** The days since Sunday are the ordinal modulo 7. *)
Lemma days_since_sun today :
  (dt.weekday today + 1) mod 7 = toordinal today mod 7.
Proof. unfold dt.weekday. Z.div_mod_to_equations. lia. Qed.

Lemma sunday_of_current_week_Ok today s :
  sunday_of_current_week today = Ok s →
  toordinal s = 7 * (toordinal today `div` 7) ∧ valid_date s.
Proof.
  unfold sunday_of_current_week, dt.sub, dt.timedelta_days. rewrite days_since_sun.
  intros [H1 H2]%add_Ok_inv. split; [|done]. simpl in H1.
  rewrite H1. Z.div_mod_to_equations. lia.
Qed.

Lemma leftmost_sunday_Ok today anchor :
  leftmost_sunday today = Ok anchor →
  toordinal anchor = 7 * (toordinal today `div` 7) - 357 ∧ valid_date anchor.
Proof.
  unfold leftmost_sunday.
  intros (s & [Hs _]%sunday_of_current_week_Ok & Ha)%bind_Ok_inv.
  unfold dt.sub, dt.timedelta_weeks in Ha. apply add_Ok_inv in Ha as [Ha ?].
  simpl in Ha. split; [lia|done].
Qed.

Lemma leftmost_sunday_defined today :
  valid_date today → 364 ≤ toordinal today →
  leftmost_sunday today = Ok (Date (7 * (toordinal today `div` 7) - 357)).
Proof.
  unfold valid_date, MAXORDINAL. intros Hv Hlo.
  unfold leftmost_sunday, sunday_of_current_week, dt.sub, dt.timedelta_days,
    dt.timedelta_weeks.
  rewrite days_since_sun, add_Ok; simpl.
  - rewrite add_Ok; simpl.
    + f_equal. f_equal. Z.div_mod_to_equations. lia.
    + unfold MAXORDINAL. Z.div_mod_to_equations. lia.
  - unfold MAXORDINAL. Z.div_mod_to_equations. lia.
Qed.

Lemma leftmost_sunday_overflow today :
  valid_date today → toordinal today < 364 →
  leftmost_sunday today = Raise OverflowError.
Proof.
  unfold valid_date. intros Hv Hhi.
  destruct (leftmost_sunday today) as [a|e] eqn:H.
  - apply leftmost_sunday_Ok in H as [H1 H2]. unfold valid_date in H2.
    exfalso. Z.div_mod_to_equations. lia.
  - revert H. unfold leftmost_sunday, sunday_of_current_week, dt.sub, dt.add.
    repeat (case_match; simpl); congruence.
Qed.

(** ** The anchor *)

(** C1, amended.  For every calendar date [today] from 0001-12-30 on
    (ordinal 364), the anchor [sunday_of_current_week(today) - 51 weeks]
    is computed and is a Sunday, and [anchor + 51 weeks] is the Sunday of
    [today]'s own week: a Sunday among the seven days that end at [today],
    and [today] itself when [today] is a Sunday.  For an earlier date the
    subtraction leaves the range of [dt.date] and raises [OverflowError]. *)
Theorem anchor_is_sunday (today : date) :
  valid_date today →
  (364 ≤ toordinal today →
   ∃ anchor sunday,
     leftmost_sunday today = Ok anchor ∧
     sunday_of_current_week today = Ok sunday ∧
     is_sunday anchor ∧
     dt.add anchor (dt.timedelta_weeks 51) = Ok sunday ∧
     is_sunday sunday ∧
     toordinal sunday ≤ toordinal today < toordinal sunday + 7 ∧
     (is_sunday today → sunday = today)) ∧
  (toordinal today < 364 → leftmost_sunday today = Raise OverflowError).
Proof.
  intros Hv. split; [|by apply leftmost_sunday_overflow].
  intros Hlo. pose proof (leftmost_sunday_defined today Hv Hlo) as Ha.
  pose proof Ha as Ha'. unfold leftmost_sunday in Ha'.
  apply bind_Ok_inv in Ha' as (sunday & Hs & _).
  pose proof (sunday_of_current_week_Ok _ _ Hs) as [Hso Hsv].
  exists (Date (7 * (toordinal today `div` 7) - 357)), sunday.
  unfold valid_date, MAXORDINAL in *.
  split; [done|]. split; [done|]. split.
  { unfold is_sunday, dt.weekday. simpl. Z.div_mod_to_equations. lia. }
  split.
  { rewrite add_Ok; simpl.
    - f_equal. destruct sunday; simpl in *. f_equal. lia.
    - unfold MAXORDINAL. lia. }
  split.
  { unfold is_sunday, dt.weekday. rewrite Hso. Z.div_mod_to_equations. lia. }
  split.
  { rewrite Hso. Z.div_mod_to_equations. lia. }
  unfold is_sunday, dt.weekday. intros Hsun.
  destruct sunday, today; simpl in *. f_equal. Z.div_mod_to_equations. lia.
Qed.

Lemma anchor_is_sunday_witness :
  ∃ anchor sunday,
    leftmost_sunday (Date 739927) = Ok anchor ∧
    sunday_of_current_week (Date 739927) = Ok sunday ∧
    is_sunday anchor ∧
    dt.add anchor (dt.timedelta_weeks 51) = Ok sunday ∧
    is_sunday sunday ∧
    toordinal sunday ≤ 739927 < toordinal sunday + 7 ∧
    (is_sunday (Date 739927) → sunday = Date 739927).
Proof.
  apply (anchor_is_sunday (Date 739927)).
  - unfold valid_date, MAXORDINAL. simpl. lia.
  - simpl. lia.
Defined.

(** C1 as stated, for every calendar date, fails at [date.min]: Monday
    0001-01-01 is a date, and the planner computes no anchor for it. *)
Lemma anchor_undefined_at_date_min :
  valid_date (Date 1) ∧
  leftmost_sunday (Date 1) = Raise OverflowError ∧
  ¬ ∃ anchor, leftmost_sunday (Date 1) = Ok anchor ∧ is_sunday anchor.
Proof.
  split; [unfold valid_date, MAXORDINAL; simpl; lia|].
  split; [reflexivity|]. intros (anchor & H & _). discriminate H.
Qed.

(** ** Indexing *)

Lemma getitem_Ok {A} (l : list A) (i : Z) :
  0 ≤ i < Z.of_nat (length l) →
  ∃ a, PyList.getitem l i = Ok a ∧ l !! Z.to_nat i = Some a.
Proof.
  intros H. unfold PyList.getitem, PyList.resolve.
  destruct (Z.ltb_spec i 0); [lia|].
  destruct (Z.leb_spec 0 i); [|lia].
  destruct (Z.ltb_spec i (Z.of_nat (length l))); [|lia]. simpl.
  destruct (lookup_lt_is_Some_2 l (Z.to_nat i)) as [a Ha]; [lia|].
  rewrite Ha. eauto.
Qed.

Lemma plan_cell_eq cv col_sun col row dates :
  is_grid 7 52 cv → 0 ≤ row < 7 → 0 ≤ col < 52 →
  plan_cell cv col_sun col row dates =
    if lit cv (col, row)
    then d ← dt.add col_sun (dt.timedelta_days row); Ok (dates ++ [d])
    else Ok dates.
Proof.
  intros [Hlen Hrows] Hrow Hcol. unfold plan_cell, lit, pixel. simpl.
  destruct (getitem_Ok cv row) as (line & -> & Hline); [lia|]. simpl.
  rewrite Hline.
  assert (Z.of_nat (length line) = 52) as Hl.
  { eapply Forall_forall in Hrows; [done|]. eapply list_elem_of_lookup_2. done. }
  destruct (getitem_Ok line col) as (px & -> & Hpx); [lia|]. simpl.
  by rewrite Hpx.
Qed.

Lemma for_each_cons {A S : Type} (x : A) xs (body : A → S → result S) s :
  for_each (x :: xs) body s = body x s ≫= for_each xs body.
Proof. done. Qed.

(** ** The planner's loops *)
Lemma plan_rows_Ok cv col_sun col rows acc dates :
  is_grid 7 52 cv → 0 ≤ col < 52 → Forall (λ row, 0 ≤ row < 7) rows →
  for_each rows (plan_cell cv col_sun col) acc = Ok dates →
  dates = acc ++ ((λ row, Date (toordinal col_sun + row)) <$>
                    filter (λ row, lit cv (col, row)) rows).
Proof.
  intros Hg Hcol Hrows. revert acc dates.
  induction Hrows as [|row rows Hrow _ IH]; intros acc dates; simpl.
  - intros [= <-]. by rewrite app_nil_r.
  - rewrite plan_cell_eq by done.
    destruct (lit cv (col, row)) eqn:Hlit; simpl.
    + intros (ds & (d & Hd & [= <-])%bind_Ok_inv & Hrest)%bind_Ok_inv.
      apply add_Ok_inv in Hd as [Hd Hv]. simpl in Hd.
      apply IH in Hrest as ->.
      rewrite filter_cons_True by (by apply Is_true_true).
      rewrite fmap_cons, <-!app_assoc. simpl.
      do 2 f_equal. destruct d; simpl in *; congruence.
    + rewrite filter_cons_False by (by apply Is_true_false). apply IH.
Qed.

Lemma plan_rows_total cv col_sun col rows acc :
  is_grid 7 52 cv → 0 ≤ col < 52 → Forall (λ row, 0 ≤ row < 7) rows →
  1 ≤ toordinal col_sun → toordinal col_sun + 6 ≤ MAXORDINAL →
  ∃ dates, for_each rows (plan_cell cv col_sun col) acc = Ok dates.
Proof.
  intros Hg Hcol Hrows Hlo Hhi. revert acc.
  induction Hrows as [|row rows Hrow _ IH]; intros acc; simpl; [eauto|].
  rewrite plan_cell_eq by done.
  destruct (lit cv (col, row)); simpl; [|apply IH].
  rewrite add_Ok by (simpl; lia). simpl. apply IH.
Qed.

Lemma column_cells_filter (cv : canvas) (col : Z) (rows : list Z) :
  filter (λ c, lit cv c) ((λ row, (col, row)) <$> rows) =
  (λ row, (col, row)) <$> filter (λ row, lit cv (col, row)) rows.
Proof.
  induction rows as [|row rows IH]; [done|]. rewrite fmap_cons.
  destruct (lit cv (col, row)) eqn:Hlit.
  - rewrite !filter_cons_True by (by apply Is_true_true). by rewrite fmap_cons, IH.
  - by rewrite !filter_cons_False by (by apply Is_true_false).
Qed.

Lemma plan_column_eq cv start col dates :
  plan_column cv start col dates =
  dt.add start (dt.timedelta_weeks col)
    ≫= λ col_sun, for_each (range 7) (plan_cell cv col_sun col) dates.
Proof. done. Qed.

Lemma plan_columns_Ok cv start cols acc dates :
  is_grid 7 52 cv → Forall (λ col, 0 ≤ col < 52) cols →
  for_each cols (plan_column cv start) acc = Ok dates →
  dates = acc ++ (cell_date start <$> filter (λ c, lit cv c) (cols ≫= column_cells)).
Proof.
  intros Hg Hcols. revert acc dates.
  induction Hcols as [|col cols Hcol _ IH]; intros acc dates.
  - intros [= <-]. by rewrite app_nil_r.
  - rewrite for_each_cons. intros (ds & (col_sun & Hs & Hrows)%bind_Ok_inv & Hrest)%bind_Ok_inv.
    apply add_Ok_inv in Hs as [Hs _]. simpl in Hs.
    apply plan_rows_Ok in Hrows as ->; [|done|done|apply range_bounds].
    apply IH in Hrest as ->.
    rewrite bind_cons, filter_app, fmap_app, <-app_assoc. do 2 f_equal.
    unfold column_cells. rewrite column_cells_filter, <-list_fmap_compose.
    apply list_fmap_ext. intros _ row _. unfold cell_date. simpl.
    f_equal. lia.
Qed.

Lemma plan_columns_total cv start cols acc :
  is_grid 7 52 cv → Forall (λ col, 0 ≤ col < 52) cols →
  1 ≤ toordinal start → toordinal start + 363 ≤ MAXORDINAL →
  ∃ dates, for_each cols (plan_column cv start) acc = Ok dates.
Proof.
  intros Hg Hcols Hlo Hhi. revert acc.
  induction Hcols as [|col cols Hcol _ IH]; intros acc; [simpl; eauto|].
  rewrite for_each_cons, plan_column_eq, add_Ok by (simpl; lia).
  destruct (plan_rows_total cv (Date (toordinal start + 7 * col)) col
              (range 7) acc) as [ds Hds];
    [done|done|apply range_bounds|simpl; lia|simpl; lia|].
  simpl in *. rewrite Hds. simpl. apply IH.
Qed.

(** ** Order of the cells *)

Lemma StronglySorted_filter {A} (R : relation A) (P : A → Prop)
    `{!∀ x, Decision (P x)} (l : list A) :
  StronglySorted R l → StronglySorted R (filter P l).
Proof.
  induction 1 as [|x l _ IH Hx]; [constructor|].
  rewrite filter_cons. case_decide; [|done].
  constructor; [done|]. apply Forall_forall. intros y [_ Hy]%list_elem_of_filter.
  eapply Forall_forall in Hx; done.
Qed.

Lemma all_cells_sorted :
  StronglySorted (λ a b, cell_index a < cell_index b) all_cells.
Proof. apply (bool_decide_unpack _). vm_compute. reflexivity. Qed.

Lemma lit_cells_sorted cv :
  StronglySorted (λ a b, cell_index a < cell_index b) (lit_cells cv).
Proof. apply StronglySorted_filter, all_cells_sorted. Qed.

Lemma all_cells_bounds : Forall (λ c, 0 ≤ c.1 < 52 ∧ 0 ≤ c.2 < 7) all_cells.
Proof. apply (bool_decide_unpack _). vm_compute. reflexivity. Qed.

Lemma lit_cells_bounds cv : Forall (λ c, 0 ≤ c.1 < 52 ∧ 0 ≤ c.2 < 7) (lit_cells cv).
Proof.
  apply Forall_forall. intros c [_ Hc]%list_elem_of_filter.
  by eapply Forall_forall in Hc; [|apply all_cells_bounds].
Qed.

Lemma schedule_chronological anchor cells :
  StronglySorted (λ a b, cell_index a < cell_index b) cells →
  chronological (cell_date anchor <$> cells).
Proof.
  unfold chronological. apply StronglySorted_fmap.
  intros a b. unfold cell_index, cell_date. simpl. lia.
Qed.

(** ** Counting the lit cells *)

Lemma length_filter_bind {A B} (P : B → Prop) `{!∀ x, Decision (P x)}
    (f : A → list B) (l : list A) :
  length (filter P (l ≫= f)) = sum_list_with (λ x, length (filter P (f x))) l.
Proof.
  induction l as [|x l IH]; [done|].
  rewrite bind_cons, filter_app, length_app, IH. done.
Qed.

Lemma sum_list_with_plus {A} (f g : A → nat) (l : list A) :
  sum_list_with (λ x, f x + g x)%nat l = (sum_list_with f l + sum_list_with g l)%nat.
Proof. induction l as [|x l IH]; simpl; lia. Qed.

Lemma sum_list_with_ext_in {A} (f g : A → nat) (l : list A) :
  Forall (λ x, f x = g x) l → sum_list_with f l = sum_list_with g l.
Proof. induction 1 as [|x l Hx _ IH]; simpl; congruence. Qed.

Lemma row_count (line : list Z) :
  sum_list_with (bit line) (range (Z.of_nat (length line))) =
  length (filter (λ px, truthy px) line).
Proof.
  induction line as [|px line IH] using rev_ind; [done|].
  rewrite length_app. simpl length. rewrite Nat.add_1_r.
  unfold range in *. rewrite seqZ_S, sum_list_with_app, filter_app, length_app.
  f_equal.
  - rewrite <-IH. apply sum_list_with_ext_in, Forall_forall.
    intros i Hi%elem_of_seqZ. unfold bit.
    rewrite lookup_app_l by lia. done.
  - simpl. unfold bit. rewrite Z.add_0_l, Nat2Z.id.
    rewrite list_lookup_middle by done. simpl.
    rewrite filter_cons, filter_nil.
    case_decide; destruct (truthy px); simpl in *; done.
Qed.

Lemma length_filter_cons {A} (P : A → Prop) `{!∀ x, Decision (P x)} x (l : list A) :
  length (filter P (x :: l)) =
  ((if decide (P x) then 1 else 0) + length (filter P l))%nat.
Proof. rewrite filter_cons. by case_decide. Qed.

Lemma decide_Is_true (b : bool) :
  (if decide (Is_true b) then 1 else 0)%nat = if b then 1%nat else 0%nat.
Proof. by destruct b. Qed.

Lemma lit_cells_count cv :
  is_grid 7 52 cv → length (lit_cells cv) = lit_count cv.
Proof.
  intros [Hlen Hrows].
  do 7 (destruct cv as [|? cv]; [cbn [length] in Hlen; lia|]).
  destruct cv; [|cbn [length] in Hlen; lia].
  clear Hlen. unfold lit_cells, all_cells. rewrite length_filter_bind.
  unfold lit_count. cbn [sum_list_with].
  repeat match goal with
         | H : Forall _ (_ :: _) |- _ => apply Forall_cons in H as [? H]
         end.
  repeat match goal with
         | H : Z.of_nat (length ?l) = 52 |- _ =>
             rewrite <-(row_count l), H; clear H
         end.
  rewrite Nat.add_0_r. rewrite <-!sum_list_with_plus.
  apply sum_list_with_ext_in, Forall_forall. intros col _.
  unfold column_cells. change (range 7) with [0; 1; 2; 3; 4; 5; 6].
  rewrite !fmap_cons, fmap_nil, !length_filter_cons, filter_nil.
  unfold lit, pixel, bit. cbn [fst snd]. rewrite !decide_Is_true.
  change (Z.to_nat 0) with 0%nat. change (Z.to_nat 1) with 1%nat.
  change (Z.to_nat 2) with 2%nat. change (Z.to_nat 3) with 3%nat.
  change (Z.to_nat 4) with 4%nat. change (Z.to_nat 5) with 5%nat.
  change (Z.to_nat 6) with 6%nat. cbn [lookup list_lookup length]. lia.
Qed.

(** ** The planner *)

Lemma plan_dates_eq {tree} (cv : canvas) (w : world tree) :
  plan_dates cv w =
  (leftmost_sunday (clock w)
     ≫= λ start, for_each (range 52) (plan_column cv start) [], w).
Proof.
  unfold plan_dates, mbind, M_bind, date_today, lift.
  by destruct (leftmost_sunday (clock w)).
Qed.

Lemma plan_dates_Ok {tree} (cv : canvas) (w w' : world tree) dates :
  is_grid 7 52 cv →
  plan_dates cv w = (Ok dates, w') →
  ∃ anchor, leftmost_sunday (clock w) = Ok anchor ∧
            dates = cell_date anchor <$> lit_cells cv.
Proof.
  intros Hg. rewrite plan_dates_eq. intros H%(f_equal fst). cbn [fst] in H.
  apply bind_Ok_inv in H as (anchor & Ha & H). exists anchor. split; [done|].
  apply plan_columns_Ok in H; [done|done|apply range_bounds].
Qed.

Lemma plan_dates_defined {tree} (cv : canvas) (w : world tree) :
  is_grid 7 52 cv → displayable (clock w) →
  ∃ dates, plan_dates cv w = (Ok dates, w).
Proof.
  intros Hg [Hlo Hhi]. rewrite plan_dates_eq.
  rewrite leftmost_sunday_defined by (unfold valid_date; lia). cbn.
  edestruct (plan_columns_total cv) as [dates ->];
    [done|apply range_bounds| | |eauto].
  - cbn. Z.div_mod_to_equations. lia.
  - cbn. unfold MAXORDINAL in *. Z.div_mod_to_equations. lia.
Qed.

(** Outside that range the date arithmetic of the planner raises: on
    9999-12-31 the last cell of the display would be 10000-01-01, and in
    the first days of year 1 there is no Sunday to start from. *)
Example plan_dates_out_of_range :
  (plan_dates sample_canvas last_world).1 = Raise OverflowError ∧
  (plan_dates (blank_canvas 7 52) last_world).1 = Ok [] ∧
  (plan_dates sample_canvas (World (Date 1) ∅ [] [] ())).1 = Raise OverflowError.
Proof. vm_compute. done. Qed.

Lemma all_cells_elem_of col row :
  (col, row) ∈ all_cells ↔ 0 ≤ col < 52 ∧ 0 ≤ row < 7.
Proof.
  unfold all_cells, column_cells, range. rewrite list_elem_of_bind. split.
  - intros (c & (r & [= -> ->] & Hr%elem_of_seqZ)%list_elem_of_fmap & Hc%elem_of_seqZ).
    lia.
  - intros [Hc Hr]. exists col. split.
    + apply list_elem_of_fmap. exists row. split; [done|]. apply elem_of_seqZ. lia.
    + apply elem_of_seqZ. lia.
Qed.

Lemma lit_cells_elem_of cv col row :
  (col, row) ∈ lit_cells cv ↔ (0 ≤ col < 52 ∧ 0 ≤ row < 7) ∧ lit cv (col, row).
Proof.
  unfold lit_cells. rewrite list_elem_of_filter, all_cells_elem_of. cbn. tauto.
Qed.

Lemma cell_of_cell_date anchor c :
  0 ≤ c.2 < 7 → cell_of_date anchor (cell_date anchor c) = c.
Proof.
  destruct c as [col row]. unfold cell_of_date, cell_date, dt.diff. simpl.
  intros H. f_equal; Z.div_mod_to_equations; lia.
Qed.

(** The window of the displayed year, kept by both loops. *)
Lemma plan_cell_keeps (Q : date → Prop) cv col_sun col row dates dates' :
  (∀ d, valid_date d → toordinal d = toordinal col_sun + row → Q d) →
  Forall Q dates →
  plan_cell cv col_sun col row dates = Ok dates' → Forall Q dates'.
Proof.
  intros HQ Hdates. unfold plan_cell.
  intros (line & _ & (px & _ & H)%bind_Ok_inv)%bind_Ok_inv.
  destruct (truthy px); [|by injection H as <-].
  apply bind_Ok_inv in H as (d & [Hd Hv]%add_Ok_inv & [= <-]).
  apply Forall_app. split; [done|]. constructor; [|done]. by apply HQ.
Qed.

Lemma plan_columns_window cv start cols dates :
  Forall (λ col, 0 ≤ col < 52) cols →
  for_each cols (plan_column cv start) [] = Ok dates →
  Forall (λ d, valid_date d ∧
               toordinal start ≤ toordinal d ≤ toordinal start + (7 * 51 + 6))
         dates.
Proof.
  intros Hcols. apply (for_each_invariant _ _ _ _ Hcols); [|constructor].
  intros col acc acc' Hcol Hacc. rewrite plan_column_eq.
  intros (col_sun & [Hs _]%add_Ok_inv & H)%bind_Ok_inv. simpl in Hs.
  revert H. apply (for_each_invariant _ _ _ _ (range_bounds 7)); [|done].
  intros row ds ds' Hrow Hds. apply plan_cell_keeps; [|done].
  intros d Hv Hd. split; [done|]. lia.
Qed.

(** C10.  Every date that [plan_dates] emits is a date of the 52
    displayed weeks: it lies between the anchor and the anchor plus 51
    weeks and 6 days, both included, so it is never later than the
    Saturday of the current week.  This holds for any canvas. *)
Theorem planned_dates_in_window {tree} (cv : canvas) (w w' : world tree) dates :
  plan_dates cv w = (Ok dates, w') →
  ∃ anchor sunday,
    leftmost_sunday (clock w) = Ok anchor ∧
    sunday_of_current_week (clock w) = Ok sunday ∧
    Forall (λ d, valid_date d ∧
                 toordinal anchor ≤ toordinal d ≤ toordinal anchor + (7 * 51 + 6) ∧
                 toordinal d ≤ toordinal sunday + 6) dates.
Proof.
  rewrite plan_dates_eq. intros H%(f_equal fst). cbn [fst] in H.
  apply bind_Ok_inv in H as (anchor & Ha & H).
  pose proof Ha as Ha'. unfold leftmost_sunday in Ha'.
  apply bind_Ok_inv in Ha' as (sunday & Hs & Hsub).
  exists anchor, sunday. split; [done|]. split; [done|].
  apply plan_columns_window in H; [|apply range_bounds].
  apply add_Ok_inv in Hsub as [Hsub _]. cbn in Hsub.
  eapply Forall_impl; [exact H|]. simpl. intros d (? & ? & ?).
  split; [done|]. lia.
Qed.

Lemma planned_dates_in_window_witness :
  ∃ anchor sunday,
    leftmost_sunday (Date 739923) = Ok anchor ∧
    sunday_of_current_week (Date 739923) = Ok sunday ∧
    Forall (λ d, valid_date d ∧
                 toordinal anchor ≤ toordinal d ≤ toordinal anchor + (7 * 51 + 6) ∧
                 toordinal d ≤ toordinal sunday + 6)
      [Date 739564; Date 739927].
Proof.
  apply (planned_dates_in_window sample_canvas sample_world sample_world).
  vm_compute. reflexivity.
Defined.

Lemma sample_canvas_grid : is_grid 7 52 sample_canvas.
Proof. split; [reflexivity|]. repeat constructor. Qed.

(** C2.  For every 7 x 52 canvas, [plan_dates] emits its dates in
    non-decreasing chronological order, and as many dates as the canvas
    has lit cells.  It does emit them whenever the 52 displayed weeks are
    dates, that is for every clock from 0001-12-30 to 9999-12-25. *)
Theorem plan_dates_chronological {tree} (cv : canvas) (w : world tree) :
  is_grid 7 52 cv →
  (displayable (clock w) → ∃ dates, plan_dates cv w = (Ok dates, w)) ∧
  (∀ dates w', plan_dates cv w = (Ok dates, w') →
     chronological dates ∧ length dates = lit_count cv).
Proof.
  intros Hg. split; [by apply plan_dates_defined|].
  intros dates w' (anchor & _ & ->)%plan_dates_Ok; [|done]. split.
  - apply schedule_chronological, lit_cells_sorted.
  - by rewrite length_fmap, lit_cells_count.
Qed.

Lemma plan_dates_chronological_witness :
  plan_dates sample_canvas sample_world
    = (Ok [Date 739564; Date 739927], sample_world) ∧
  chronological [Date 739564; Date 739927] ∧
  length [Date 739564; Date 739927] = lit_count sample_canvas.
Proof.
  split; [vm_compute; reflexivity|].
  apply (plan_dates_chronological sample_canvas sample_world sample_canvas_grid)
    with (w' := sample_world).
  vm_compute. reflexivity.
Defined.

(** C3.  Round trip: the dates that [plan_dates] emits for a 7 x 52
    canvas are the days [anchor + column weeks + row days] of its lit
    cells, in order, and from each of them [d = (date - anchor).days] and
    then [(d // 7, d % 7)] give back the (column, row) of the cell; every
    lit cell has its date in the schedule. *)
Theorem plan_dates_round_trip {tree} (cv : canvas) (w : world tree) :
  is_grid 7 52 cv →
  (displayable (clock w) → ∃ dates, plan_dates cv w = (Ok dates, w)) ∧
  (∀ dates w' anchor,
     plan_dates cv w = (Ok dates, w') →
     leftmost_sunday (clock w) = Ok anchor →
     dates = cell_date anchor <$> lit_cells cv ∧
     cell_of_date anchor <$> dates = lit_cells cv ∧
     ∀ col row, 0 ≤ col < 52 → 0 ≤ row < 7 → lit cv (col, row) →
       cell_date anchor (col, row) ∈ dates ∧
       cell_of_date anchor (cell_date anchor (col, row)) = (col, row)).
Proof.
  intros Hg. split; [by apply plan_dates_defined|].
  intros dates w' anchor (anchor' & Ha' & ->)%plan_dates_Ok Ha; [|done].
  assert (anchor' = anchor) as -> by congruence.
  split; [done|]. split.
  - rewrite <-list_fmap_compose. rewrite <-(list_fmap_id (lit_cells cv)) at 2.
    apply Forall_fmap_ext_1. eapply Forall_impl; [apply lit_cells_bounds|].
    intros c [_ Hc]. by apply cell_of_cell_date.
  - intros col row Hcol Hrow Hlit. split.
    + apply list_elem_of_fmap_2, lit_cells_elem_of. done.
    + by apply cell_of_cell_date.
Qed.

Lemma plan_dates_round_trip_witness :
  [Date 739564; Date 739927] = cell_date (Date 739564) <$> lit_cells sample_canvas ∧
  cell_of_date (Date 739564) <$> [Date 739564; Date 739927] = lit_cells sample_canvas ∧
  ∀ col row, 0 ≤ col < 52 → 0 ≤ row < 7 → lit sample_canvas (col, row) →
     cell_date (Date 739564) (col, row) ∈ [Date 739564; Date 739927] ∧
     cell_of_date (Date 739564) (cell_date (Date 739564) (col, row)) = (col, row).
Proof.
  apply (plan_dates_round_trip sample_canvas sample_world sample_canvas_grid)
    with (w' := sample_world); vm_compute; reflexivity.
Defined.

(** C7.  The planner has no side effect, it leaves the world as it found
    it, and what it returns depends on the canvas and on the date of the
    clock only: two runs with the same canvas and the same [today] return
    the same dates (or raise the same exception). *)
Theorem plan_dates_pure {tree} (cv : canvas) (w1 w2 : world tree) :
  (plan_dates cv w1).2 = w1 ∧
  (clock w1 = clock w2 → (plan_dates cv w1).1 = (plan_dates cv w2).1).
Proof.
  rewrite !plan_dates_eq. cbn [fst snd]. split; [done|]. by intros ->.
Qed.

Lemma plan_dates_pure_witness :
  (plan_dates sample_canvas sample_world).2 = sample_world ∧
  (plan_dates sample_canvas sample_world).1
    = (plan_dates sample_canvas noisy_world).1.
Proof.
  destruct (plan_dates_pure sample_canvas sample_world noisy_world) as [H1 H2].
  split; [exact H1|]. apply H2. reflexivity.
Defined.

(** ** The compositor *)

Lemma setitem_Ok {A} (l : list A) (i : Z) (v : A) :
  0 ≤ i < Z.of_nat (length l) →
  PyList.setitem l i v = Ok (<[Z.to_nat i := v]> l).
Proof.
  intros H. unfold PyList.setitem, PyList.resolve.
  destruct (Z.ltb_spec i 0); [lia|].
  destruct (Z.leb_spec 0 i); [|lia].
  destruct (Z.ltb_spec i (Z.of_nat (length l))); [done|lia].
Qed.

Lemma blank_canvas_painted cols :
  0 ≤ cols → painted cols (Painting (blank_canvas 7 cols) []).
Proof.
  intros Hcols. unfold painted, blank_canvas, is_grid, binary, range. cbn [cells written].
  split; [split|split].
  - by rewrite length_fmap, length_seqZ.
  - apply Forall_fmap, Forall_forall. intros r _. cbn.
    rewrite length_fmap, length_seqZ. lia.
  - apply Forall_fmap, Forall_forall. intros r _. cbn.
    apply Forall_fmap, Forall_forall. intros x _. cbn. by left.
  - constructor.
Qed.

Lemma paint_Ok cols p r i :
  painted cols p → 0 ≤ r < 7 → 0 ≤ i < cols →
  ∃ p', paint p r i = Ok p' ∧ painted cols p'.
Proof.
  intros ([Hlen Hrows] & Hbin & Hlog) Hr Hi. unfold paint, write_cell.
  destruct (getitem_Ok (cells p) r) as (row & -> & Hrow); [lia|]. cbn.
  assert (Z.of_nat (length row) = cols) as Hl.
  { eapply Forall_forall in Hrows; [done|]. by eapply list_elem_of_lookup_2. }
  rewrite setitem_Ok by lia. cbn. rewrite setitem_Ok by lia. cbn.
  eexists. split; [done|]. split; [split|split]; simpl.
  - by rewrite length_insert.
  - apply Forall_insert; [done|]. by rewrite length_insert.
  - apply Forall_insert; [done|]. apply Forall_insert; [|by right].
    eapply Forall_forall in Hbin; [done|]. by eapply list_elem_of_lookup_2.
  - apply Forall_app. split; [done|]. constructor; [|constructor].
    unfold in_grid. simpl. lia.
Qed.

Lemma str_getitem_Ok (line : string) (x : Z) :
  0 ≤ x < Z.of_nat (String.length line) → ∃ px, str_getitem line x = Ok px.
Proof.
  intros H. unfold str_getitem.
  destruct (getitem_Ok (list_ascii_of_string line) x) as (px & -> & _); [|eauto].
  replace (length (list_ascii_of_string line)) with (String.length line); [done|].
  clear. induction line; simpl; congruence.
Qed.

Lemma stamp_pixel_Ok g c cols r x p :
  well_formed g → painted cols p → 0 ≤ r < 7 → 0 ≤ x < 5 →
  ∃ p', stamp_pixel g c cols r x p = Ok p' ∧ painted cols p'.
Proof.
  intros [Hg Hlines] Hp Hr Hx. unfold stamp_pixel.
  destruct (getitem_Ok g r) as (line & -> & Hline); [lia|]. cbn.
  assert (String.length line = 5%nat) as Hl.
  { eapply Forall_forall in Hlines; [done|]. by eapply list_elem_of_lookup_2. }
  destruct (str_getitem_Ok line x) as [px ->]; [lia|]. cbn.
  destruct (bool_decide (px = "1"%char)); cbn; [|eauto].
  destruct (Z.leb_spec 0 (c + x)); cbn; [|eauto].
  destruct (Z.ltb_spec (c + x) cols); cbn; [|eauto].
  by apply paint_Ok.
Qed.

Lemma stamp_glyph_Ok g c cols p :
  well_formed g → painted cols p →
  ∃ p', stamp_glyph g c cols p = Ok p' ∧ painted cols p'.
Proof.
  intros Hg Hp. unfold stamp_glyph.
  apply (for_each_total (painted cols) _ _ _ (range_bounds 7)); [|done].
  intros r q Hr Hq.
  apply (for_each_total (painted cols) _ _ _ (range_bounds 5)); [|done].
  intros x q' Hx Hq'. by apply stamp_pixel_Ok.
Qed.

Lemma font_well_formed ch g : FONT_5x7 !! ch = Some g → well_formed g.
Proof.
  unfold FONT_5x7. intros H%elem_of_list_to_map_2.
  repeat (apply elem_of_cons in H as [[= _ ->]|H];
          [split; [reflexivity|repeat constructor]|]).
  by apply elem_of_nil in H.
Qed.

Lemma measure_letters spacing chars width letters :
  Forall well_formed letters →
  Forall well_formed (foldl (measure spacing) (width, letters) chars).2.
Proof.
  revert width letters. induction chars as [|ch chars IH]; intros width letters Hl; [done|].
  simpl. unfold measure at 2. destruct (FONT_5x7 !! ch) as [g|] eqn:Hch; simpl.
  - apply IH, Forall_app. split; [done|]. constructor; [|done].
    by eapply font_well_formed.
  - by apply IH.
Qed.

Lemma measure_unsupported spacing chars st :
  Forall (λ ch, FONT_5x7 !! ch = None) chars →
  foldl (measure spacing) st chars = st.
Proof.
  intros H. revert st. induction H as [|ch chars Hch _ IH]; intros st; [done|].
  simpl. unfold measure at 2. rewrite Hch. apply IH.
Qed.

Lemma stamp_letters_Ok cols spacing letters p c :
  Forall well_formed letters → painted cols p →
  ∃ p' c',
    for_each letters
      (λ g '(p, c), p' ← stamp_glyph g c cols p; Ok (p', c + (5 + spacing)))
      (p, c) = Ok (p', c') ∧ painted cols p'.
Proof.
  intros Hl. revert p c. induction Hl as [|g letters Hg _ IH]; intros p c Hp.
  - simpl. eauto.
  - rewrite for_each_cons.
    destruct (stamp_glyph_Ok g c cols p Hg Hp) as (p1 & -> & Hp1). cbn.
    by apply IH.
Qed.

Lemma compose_word_traced_painted (upper : pystr → pystr) (word : pystr)
    (total_columns spacing : Z) :
  0 ≤ total_columns →
  ∃ p, compose_word_traced upper word total_columns spacing = Ok p ∧
       painted total_columns p.
Proof.
  intros Hcols. unfold compose_word_traced. cbv zeta.
  pose proof (measure_letters spacing (upper word) 0 [] (Forall_nil_2 _)) as Hl.
  destruct (foldl (measure spacing) (0, []) (upper word)) as [width letters].
  cbn [snd] in Hl.
  edestruct (stamp_letters_Ok total_columns spacing letters) as (p & c & -> & Hp);
    [done|by apply blank_canvas_painted|].
  cbn. eauto.
Qed.

(** The canvas of the program: the default 52 columns and spacing 1. *)
Lemma compose_word_canvas (upper : pystr → pystr) (word : pystr) :
  ∃ cv, compose_word upper word 52 1 = Ok cv ∧ is_grid 7 52 cv.
Proof.
  destruct (compose_word_traced_painted upper word 52 1) as (p & Hp & Hg & _);
    [lia|].
  exists (cells p). unfold compose_word. rewrite Hp. done.
Qed.

(** C9.  For every word, every number of columns that is not negative
    and every spacing, [compose_word] returns a grid of exactly 7 rows of
    exactly [total_columns] entries, every entry 0 or 1, and every
    assignment [canvas[r][i] = 1] it executed targets a cell of the grid:
    [0 <= r < 7] and [0 <= i < total_columns]. *)
Theorem compose_word_grid (upper : pystr → pystr) (word : pystr)
    (total_columns spacing : Z) :
  0 ≤ total_columns →
  ∃ p, compose_word_traced upper word total_columns spacing = Ok p ∧
       compose_word upper word total_columns spacing = Ok (cells p) ∧
       is_grid 7 total_columns (cells p) ∧
       binary (cells p) ∧
       Forall (in_grid 7 total_columns) (written p).
Proof.
  intros Hcols.
  destruct (compose_word_traced_painted upper word total_columns spacing Hcols)
    as (p & Hp & Hgrid & Hbin & Hlog).
  exists p. split; [exact Hp|]. split.
  - unfold compose_word. rewrite Hp. reflexivity.
  - split; [exact Hgrid|]. split; [exact Hbin|exact Hlog].
Qed.

Lemma compose_word_grid_witness :
  ∃ p, compose_word_traced upper_ascii (text "Nerdlin") 52 1 = Ok p ∧
       compose_word upper_ascii (text "Nerdlin") 52 1 = Ok (cells p) ∧
       is_grid 7 52 (cells p) ∧ binary (cells p) ∧
       Forall (in_grid 7 52) (written p).
Proof. apply (compose_word_grid upper_ascii (text "Nerdlin") 52 1). lia. Defined.

Lemma blank_canvas_dark rows cols :
  Forall (Forall (λ px, px = 0)) (blank_canvas rows cols) ∧
  lit_count (blank_canvas rows cols) = 0%nat.
Proof.
  unfold blank_canvas, lit_count. split.
  - apply Forall_fmap, Forall_forall. intros r _. cbn.
    apply Forall_fmap, Forall_forall. intros x _. done.
  - induction (range rows) as [|r rs IH]; [done|].
    rewrite fmap_cons. cbn [sum_list_with]. rewrite IH, Nat.add_0_r.
    clear. induction (range cols) as [|x xs IH]; [done|].
    rewrite fmap_cons, filter_cons_False; [done|]. cbn. tauto.
Qed.

(** C6.  For the empty word, and for every word none of whose characters
    is in the glyph table after uppercasing, [compose_word] returns
    normally, and what it returns is the all-empty grid: 7 rows of
    [total_columns] entries, so 7 rows of 52 in the program, with every
    entry 0 and no lit cell. *)
Theorem compose_word_unsupported (upper : pystr → pystr)
    (total_columns spacing : Z) :
  let empty := replicate 7 (replicate (Z.to_nat total_columns) 0) in
  (upper_spec upper →
   compose_word upper [] total_columns spacing = Ok empty) ∧
  (∀ word, Forall (λ ch, FONT_5x7 !! ch = None) (upper word) →
           compose_word upper word total_columns spacing = Ok empty) ∧
  (0 ≤ total_columns → is_grid 7 total_columns empty) ∧
  Forall (Forall (λ px, px = 0)) empty ∧
  (∀ row col, pixel empty row col = 0) ∧
  (∀ c, lit empty c = false) ∧
  lit_count empty = 0%nat.
Proof.
  intros empty.
  assert (blank_canvas 7 total_columns = empty) as Hblank.
  { unfold blank_canvas, range, empty.
    rewrite !fmap_const_replicate, !length_seqZ. done. }
  assert (∀ word, Forall (λ ch, FONT_5x7 !! ch = None) (upper word) →
                  compose_word upper word total_columns spacing = Ok empty)
    as Hdark.
  { intros word Hw. unfold compose_word, compose_word_traced. cbv zeta.
    by rewrite measure_unsupported, Hblank. }
  assert (∀ row col, pixel empty row col = 0) as Hpixel.
  { intros row col. unfold pixel, empty.
    destruct (replicate 7 _ !! Z.to_nat row) as [line|] eqn:Hline; [|done].
    apply lookup_replicate in Hline as [-> _].
    destruct (replicate _ 0 !! Z.to_nat col) as [px|] eqn:Hpx; [|done].
    by apply lookup_replicate in Hpx as [-> _]. }
  split; [intros Hup; apply Hdark; rewrite (Hup []); constructor|].
  split; [done|]. split.
  { intros Hcols. unfold is_grid, empty. split; [done|].
    apply Forall_replicate. rewrite length_replicate. lia. }
  pose proof (blank_canvas_dark 7 total_columns) as [Hzero Hcount].
  rewrite Hblank in Hzero, Hcount.
  split; [done|]. split; [done|]. split; [|done].
  intros c. unfold lit. by rewrite Hpixel.
Qed.

Lemma upper_ascii_spec : upper_spec upper_ascii.
Proof. by intros s _. Qed.

Lemma compose_word_unsupported_witness :
  compose_word upper_ascii [] 52 1 = Ok (replicate 7 (replicate 52 0)) ∧
  compose_word upper_ascii (text "2024 xyz!") 52 1
    = Ok (replicate 7 (replicate 52 0)) ∧
  is_grid 7 52 (replicate 7 (replicate 52 0)).
Proof.
  destruct (compose_word_unsupported upper_ascii 52 1) as (H0 & H1 & H2 & _).
  split; [apply H0, upper_ascii_spec|].
  split; [apply H1; vm_compute; repeat constructor|].
  apply H2. lia.
Defined.

(** C4.  For every single-letter word whose letter is one of N, E, R, D,
    L, I in either case, [compose_word] with 52 columns and spacing 1
    returns the glyph of the letter placed at start column
    [max(0, (52 - 5) // 2) = 23], all other cells unlit. *)
Theorem compose_single_letter (upper : pystr → pystr) (ch : N) :
  upper_spec upper → ch ∈ supported_letters →
  Z.max 0 ((52 - 5) `div` 2) = 23 ∧
  ∃ g, FONT_5x7 !! ascii_upper ch = Some g ∧
       compose_word upper [ch] 52 1 = Ok (place_glyph g 23 52).
Proof.
  intros Hup Hch. split; [reflexivity|].
  unfold compose_word, compose_word_traced. cbv zeta.
  rewrite (Hup [ch]).
  - unfold supported_letters in Hch. cbn in Hch.
    repeat (apply elem_of_cons in Hch as [->|Hch];
            [eexists; split; vm_compute; reflexivity|]).
    by apply elem_of_nil in Hch.
  - constructor; [|constructor]. unfold supported_letters in Hch. cbn in Hch.
    repeat (apply elem_of_cons in Hch as [->|Hch]; [reflexivity|]).
    by apply elem_of_nil in Hch.
Qed.

Lemma compose_single_letter_witness :
  Z.max 0 ((52 - 5) `div` 2) = 23 ∧
  ∃ g, FONT_5x7 !! ascii_upper (chr "r") = Some g ∧
       compose_word upper_ascii [chr "r"] 52 1 = Ok (place_glyph g 23 52).
Proof.
  apply (compose_single_letter upper_ascii (chr "r") upper_ascii_spec).
  vm_compute. repeat constructor.
Defined.

(** ** The program *)

Section Main.
Context {tree : Type}.
Variable upper : pystr → pystr.
Variable isoformat : date → pystr.
Variable as_posix : pystr → pystr.
Variable files : pathlib tree.
Variable shell : pystr → gmap pystr pystr → tree → Z * tree.

(** The program with its collaborators. *)
Let program := main upper isoformat as_posix files shell.

(** Up to the report, the program only composes, plans and prints. *)
Lemma main_dry_run (a : args) (w : world tree) :
  apply a = false →
  program a w =
    match compose_word upper (word a) 52 1 with
    | Raise e => (Raise e, w)
    | Ok cv =>
        match plan_dates cv w with
        | (Raise e, w') => (Raise e, w')
        | (Ok dates, w') =>
            let n := Z.of_nat (length dates) in
            print (report_line n (n * intensity a)) w'
        end
    end.
Proof.
  intros Ha. unfold program, main, mbind, M_bind, lift.
  destruct (compose_word upper (word a) 52 1) as [cv|e]; [|done].
  destruct (plan_dates cv w) as [[dates|e] w']; [|done].
  cbv zeta. unfold print. rewrite Ha. reflexivity.
Qed.

Lemma main_no_email (a : args) (w : world tree) :
  apply a = true →
  email_missing (email a) →
  email_missing (environ w !! text "GIT_AUTHOR_EMAIL") →
  program a w =
    match compose_word upper (word a) 52 1 with
    | Raise e => (Raise e, w)
    | Ok cv =>
        match plan_dates cv w with
        | (Raise e, w') => (Raise e, w')
        | (Ok dates, w') =>
            let n := Z.of_nat (length dates) in
            (Raise (SystemExit email_required),
             (print (report_line n (n * intensity a)) w').2)
        end
    end.
Proof.
  intros Ha He Hv. unfold program, main, mbind, M_bind, lift.
  destruct (compose_word upper (word a) 52 1) as [cv|e]; [|done].
  destruct (plan_dates cv w) as [[dates|e] w'] eqn:Hplan; [|done].
  cbv zeta. unfold print, environ_get. rewrite Ha. cbn [negb environ].
  assert (w' = w) as -> by (by rewrite plan_dates_eq in Hplan; injection Hplan).
  destruct He as [-> | ->], Hv as [-> | ->]; reflexivity.
Qed.
End Main.

Lemma planned_count {tree} (upper : pystr → pystr) (word : pystr) (w : world tree) :
  displayable (clock w) →
  ∃ cv dates, compose_word upper word 52 1 = Ok cv ∧
              plan_dates cv w = (Ok dates, w) ∧
              length dates = lit_count cv.
Proof.
  intros Hclock.
  destruct (compose_word_canvas upper word) as (cv & Hcv & Hg).
  destruct (plan_dates_defined cv w Hg Hclock) as [dates Hplan].
  exists cv, dates. split; [done|]. split; [done|].
  apply plan_dates_Ok in Hplan as (anchor & _ & ->); [|done].
  by rewrite length_fmap, lit_cells_count.
Qed.



(** With an email the same program does reach the shell: for the word "I"
    and intensity 1 it checks the repository, adds and commits once for
    each of the 13 lit cells, and pushes. *)
Example main_with_email :
  let outcome :=
    main upper_ascii ordinal_format id keep_text counting_shell
         signed_args fresh_world in
  outcome.1 = Ok () ∧ worktree outcome.2 = 28%nat ∧
  length (commands outcome.2) = 28%nat.
Proof. vm_compute. done. Qed.

Lemma saturday_anchor today :
  valid_date today → 364 ≤ toordinal today → dt.weekday today = 5 →
  leftmost_sunday today = Ok (Date (toordinal today - 6 - 7 * 51)).
Proof.
  intros Hv Hlo Hsat. rewrite leftmost_sunday_defined by done.
  do 2 f_equal. unfold dt.weekday in Hsat. Z.div_mod_to_equations. lia.
Qed.

(** C5, amended.  For the word "I" on the 52-column canvas with [today] a
    Saturday: the lit cells are in the centred slot of columns 23 to 27;
    there the rows 0 and 4 are fully lit, the rows 1, 2 and 3 carry a
    single-column stem at column 25, and the rows 5 and 6 are unlit; the
    emitted dates are the days of these 13 cells, from anchor + 23 weeks
    + 0 days to anchor + 27 weeks + 4 days, where the anchor is 51 weeks
    before the Sunday that precedes [today] by 6 days. *)
Theorem letter_I_schedule {tree} (upper : pystr → pystr) (w : world tree) :
  upper_spec upper → displayable (clock w) → dt.weekday (clock w) = 5 →
  ∃ cv anchor,
    compose_word upper (text "I") 52 1 = Ok cv ∧
    slot_row cv 0 = all_lit ∧ slot_row cv 1 = stem ∧ slot_row cv 2 = stem ∧
    slot_row cv 3 = stem ∧ slot_row cv 4 = all_lit ∧
    slot_row cv 5 = unlit ∧ slot_row cv 6 = unlit ∧
    lit_cells cv = cells_of_I ∧
    leftmost_sunday (clock w) = Ok anchor ∧
    toordinal anchor = toordinal (clock w) - 6 - 7 * 51 ∧
    plan_dates cv w = (Ok (cell_date anchor <$> cells_of_I), w) ∧
    head (cell_date anchor <$> cells_of_I)
      = Some (Date (toordinal anchor + 7 * 23 + 0)) ∧
    last (cell_date anchor <$> cells_of_I)
      = Some (Date (toordinal anchor + 7 * 27 + 4)).
Proof.
  intros Hup Hclock Hsat.
  assert (compose_word upper (text "I") 52 1 = Ok (place_glyph glyph_I 23 52)) as Hcv.
  { unfold compose_word, compose_word_traced. cbv zeta.
    rewrite (Hup (text "I")) by (vm_compute; repeat constructor).
    vm_compute. reflexivity. }
  assert (is_grid 7 52 (place_glyph glyph_I 23 52)) as Hg.
  { split; [reflexivity|]. repeat constructor. }
  assert (lit_cells (place_glyph glyph_I 23 52) = cells_of_I) as Hcells
    by (vm_compute; reflexivity).
  destruct Hclock as [Hlo Hhi].
  pose proof (saturday_anchor (clock w)) as Ha.
  rewrite Ha by (unfold valid_date; lia || done).
  destruct (plan_dates_defined _ w Hg (conj Hlo Hhi)) as [dates Hplan].
  pose proof Hplan as Hplan'.
  apply plan_dates_Ok in Hplan' as (anchor & Ha' & ->); [|done].
  rewrite Ha in Ha' by (unfold valid_date; lia || done).
  injection Ha' as <-. rewrite Hcells in Hplan.
  eexists _, _. split; [exact Hcv|].
  do 7 (split; [vm_compute; reflexivity|]).
  split; [done|]. split; [done|]. split; [done|]. split; [done|].
  split; reflexivity.
Qed.

Lemma letter_I_schedule_witness :
  ∃ cv anchor,
    compose_word upper_ascii (text "I") 52 1 = Ok cv ∧
    slot_row cv 0 = all_lit ∧ slot_row cv 1 = stem ∧ slot_row cv 2 = stem ∧
    slot_row cv 3 = stem ∧ slot_row cv 4 = all_lit ∧
    slot_row cv 5 = unlit ∧ slot_row cv 6 = unlit ∧
    lit_cells cv = cells_of_I ∧
    leftmost_sunday (Date 739927) = Ok anchor ∧
    toordinal anchor = 739927 - 6 - 7 * 51 ∧
    plan_dates cv saturday_world
      = (Ok (cell_date anchor <$> cells_of_I), saturday_world) ∧
    head (cell_date anchor <$> cells_of_I)
      = Some (Date (toordinal anchor + 7 * 23 + 0)) ∧
    last (cell_date anchor <$> cells_of_I)
      = Some (Date (toordinal anchor + 7 * 27 + 4)).
Proof.
  apply (letter_I_schedule upper_ascii saturday_world upper_ascii_spec).
  - unfold displayable, MAXORDINAL. simpl. lia.
  - reflexivity.
Defined.

(** C5 as stated fails: in the canvas of the word "I" the third row of the
    slot is a stem and the last row is unlit, neither is fully lit. *)
Lemma letter_I_not_as_described :
  ∃ cv, compose_word upper_ascii (text "I") 52 1 = Ok cv ∧
        slot_row cv 2 = stem ∧ slot_row cv 6 = unlit ∧
        ¬ I_as_described cv.
Proof.
  eexists. split; [vm_compute; reflexivity|].
  split; [reflexivity|]. split; [reflexivity|].
  intros (_ & H & _). vm_compute in H. discriminate H.
Qed.

(** * Further properties *)

(** ** The Sunday of the week *)

(** X1.  For a date [today] from 0001-01-07 on,
    [sunday_of_current_week] returns a Sunday among the seven days that
    end at [today], and applied to that Sunday it returns it again.  For
    the six dates before, 0001-01-01 to 0001-01-06, the Sunday of the week
    is before [date.min] and the subtraction raises [OverflowError]. *)
Theorem sunday_of_current_week_spec (today : date) :
  valid_date today →
  (7 ≤ toordinal today →
   ∃ s, sunday_of_current_week today = Ok s ∧ is_sunday s ∧
        toordinal s ≤ toordinal today < toordinal s + 7 ∧
        sunday_of_current_week s = Ok s) ∧
  (toordinal today < 7 → sunday_of_current_week today = Raise OverflowError).
Proof.
  intros [Hlo Hhi].
  assert (∀ d, sunday_of_current_week d
               = dt.add d (Timedelta (- (toordinal d mod 7)))) as Heq.
  { intros d. unfold sunday_of_current_week, dt.sub, dt.timedelta_days.
    by rewrite days_since_sun. }
  split.
  - intros H7. exists (Date (7 * (toordinal today `div` 7))).
    rewrite !Heq. unfold is_sunday, dt.weekday. cbn [toordinal].
    split; [|split; [|split]].
    + rewrite add_Ok; cbn [days]; [f_equal; f_equal|]; Z.div_mod_to_equations; lia.
    + Z.div_mod_to_equations. lia.
    + Z.div_mod_to_equations. lia.
    + rewrite add_Ok; cbn [days toordinal]; [f_equal; f_equal|];
        unfold MAXORDINAL in *; Z.div_mod_to_equations; lia.
  - intros H7. rewrite Heq. unfold dt.add. cbn [days].
    destruct (Z.ltb_spec 0 (toordinal today + - (toordinal today mod 7))); [|done].
    exfalso. Z.div_mod_to_equations. lia.
Qed.

Lemma sunday_of_current_week_spec_witness :
  ∃ s, sunday_of_current_week (Date 739923) = Ok s ∧ is_sunday s ∧
       toordinal s ≤ 739923 < toordinal s + 7 ∧
       sunday_of_current_week s = Ok s.
Proof.
  apply (sunday_of_current_week_spec (Date 739923)).
  - unfold valid_date, MAXORDINAL. simpl. lia.
  - simpl. lia.
Defined.

(** ** Canvases of other sizes *)

Lemma for_each_ext {A S : Type} (xs : list A) (f g : A → S → result S) s :
  Forall (λ x, ∀ s, f x s = g x s) xs → for_each xs f s = for_each xs g s.
Proof.
  intros H. revert s. induction H as [|x xs Hx _ IH]; intros s; [done|].
  rewrite !for_each_cons, Hx. destruct (g x s); [apply IH|done].
Qed.

(** A loop that ends normally has run its body normally on every element. *)
Lemma for_each_Ok_all {A S : Type} (xs : list A) (body : A → S → result S) s s' :
  for_each xs body s = Ok s' →
  Forall (λ x, ∃ s1 s2, body x s1 = Ok s2) xs.
Proof.
  revert s. induction xs as [|x xs IH]; intros s; [constructor|].
  rewrite for_each_cons. intros (s1 & H1 & H2)%bind_Ok_inv.
  constructor; [eauto|]. by eapply IH.
Qed.

(** A loop raises what its body raises. *)
Lemma for_each_Raise {A S : Type} (P : exn → Prop) (Q : A → Prop)
    (xs : list A) (body : A → S → result S) s e :
  Forall Q xs →
  (∀ x s e, Q x → body x s = Raise e → P e) →
  for_each xs body s = Raise e → P e.
Proof.
  intros HQ Hbody. revert s. induction HQ as [|x xs Hx _ IH]; intros s; [done|].
  rewrite for_each_cons. destruct (body x s) as [s1|e1] eqn:H1; cbn.
  - apply IH.
  - intros [= <-]. eauto.
Qed.

Lemma getitem_Ok_inv {A} (l : list A) (i : Z) (a : A) :
  0 ≤ i → PyList.getitem l i = Ok a → l !! Z.to_nat i = Some a.
Proof.
  intros Hi. unfold PyList.getitem, PyList.resolve.
  destruct (Z.ltb_spec i 0); [lia|].
  destruct ((0 <=? i) && (i <? Z.of_nat (length l))); cbn; [|done].
  destruct (l !! Z.to_nat i); [congruence|done].
Qed.

Lemma getitem_Raise {A} (l : list A) (i : Z) (e : exn) :
  PyList.getitem l i = Raise e → e = IndexError.
Proof.
  unfold PyList.getitem, PyList.resolve.
  destruct ((0 <=? _) && (_ <? _)); cbn; [|congruence].
  destruct (l !! _); congruence.
Qed.

Lemma getitem_take {A} (l : list A) (n : nat) (i : Z) :
  (n ≤ length l)%nat → 0 ≤ i < Z.of_nat n →
  PyList.getitem (take n l) i = PyList.getitem l i.
Proof.
  intros Hn Hi.
  destruct (getitem_Ok (take n l) i) as (a & -> & Ha); [rewrite length_take_le by done; lia|].
  destruct (getitem_Ok l i) as (b & -> & Hb); [lia|].
  rewrite lookup_take_lt in Ha by lia. congruence.
Qed.

Lemma covers_row (cv : canvas) (row : Z) :
  covers cv → 0 ≤ row < 7 →
  ∃ line, cv !! Z.to_nat row = Some line ∧ (52 ≤ length line)%nat.
Proof.
  intros [Hlen Hrows] Hrow.
  destruct (lookup_lt_is_Some_2 cv (Z.to_nat row)) as [line Hline]; [lia|].
  exists line. split; [done|].
  eapply Forall_forall in Hrows; [done|].
  apply (list_elem_of_lookup_2 _ (Z.to_nat row)). rewrite lookup_take_lt by lia. done.
Qed.

Lemma window_grid (cv : canvas) : covers cv → is_grid 7 52 (window cv).
Proof.
  intros [Hlen Hrows]. unfold window. split.
  - rewrite length_fmap, length_take_le by done. lia.
  - apply Forall_fmap. eapply Forall_impl; [exact Hrows|].
    intros line Hl. cbn. rewrite length_take_le by done. lia.
Qed.

Lemma plan_cell_window cv col_sun col row dates :
  covers cv → 0 ≤ col < 52 → 0 ≤ row < 7 →
  plan_cell cv col_sun col row dates = plan_cell (window cv) col_sun col row dates.
Proof.
  intros Hcv Hcol Hrow. unfold plan_cell.
  destruct (covers_row cv row Hcv Hrow) as (line & Hline & Hl).
  destruct (getitem_Ok cv row) as (l1 & -> & H1); [destruct Hcv; lia|].
  destruct (getitem_Ok (window cv) row) as (l2 & -> & H2).
  { destruct (window_grid cv Hcv) as [-> _]. lia. }
  unfold window in H2. rewrite list_lookup_fmap, lookup_take_lt in H2 by lia.
  rewrite H1 in H2, Hline. injection H2 as <-. injection Hline as ->. cbn.
  by rewrite getitem_take by lia.
Qed.

Lemma plan_dates_window {tree} (cv : canvas) (w : world tree) :
  covers cv → plan_dates cv w = plan_dates (window cv) w.
Proof.
  intros Hcv. rewrite !plan_dates_eq. f_equal.
  destruct (leftmost_sunday (clock w)) as [start|]; [cbn|done].
  apply for_each_ext. eapply Forall_impl; [apply (range_bounds 52)|].
  intros col Hcol dates. rewrite !plan_column_eq.
  destruct (dt.add start (dt.timedelta_weeks col)) as [col_sun|]; [cbn|done].
  apply for_each_ext. eapply Forall_impl; [apply (range_bounds 7)|].
  intros row Hrow ds. by apply plan_cell_window.
Qed.

Lemma plan_cell_Ok_inv cv col_sun col row s1 s2 :
  0 ≤ row → 0 ≤ col →
  plan_cell cv col_sun col row s1 = Ok s2 →
  ∃ line, cv !! Z.to_nat row = Some line ∧ (Z.to_nat col < length line)%nat.
Proof.
  intros Hrow Hcol. unfold plan_cell.
  intros (line & Hline%getitem_Ok_inv & (px & Hpx%getitem_Ok_inv & _)%bind_Ok_inv)%bind_Ok_inv;
    [|done|done].
  exists line. split; [done|]. by eapply lookup_lt_Some.
Qed.

Lemma plan_columns_covers cv start dates :
  for_each (range 52) (plan_column cv start) [] = Ok dates → covers cv.
Proof.
  intros H%for_each_Ok_all.
  assert (∀ col row, 0 ≤ col < 52 → 0 ≤ row < 7 →
            ∃ line, cv !! Z.to_nat row = Some line
                    ∧ (Z.to_nat col < length line)%nat) as Hcell.
  { intros col row Hcol Hrow.
    rewrite Forall_forall in H.
    destruct (H col) as (s1 & s2 & H1); [apply elem_of_seqZ; lia|].
    rewrite plan_column_eq in H1. apply bind_Ok_inv in H1 as (col_sun & _ & H1).
    apply for_each_Ok_all in H1. rewrite Forall_forall in H1.
    destruct (H1 row) as (s3 & s4 & H2); [apply elem_of_seqZ; lia|].
    eapply plan_cell_Ok_inv; [| |exact H2]; lia. }
  split.
  - destruct (Hcell 0 6) as (line & Hline%lookup_lt_Some & _); lia.
  - apply Forall_forall. intros line [i Hi]%list_elem_of_lookup_1.
    pose proof (lookup_lt_Some _ _ _ Hi) as Hlt.
    rewrite length_take in Hlt. apply Nat.min_glb_lt_iff in Hlt as [Hlt _].
    rewrite lookup_take_lt in Hi by lia.
    destruct (Hcell 51 (Z.of_nat i)) as (line' & Hline' & Hl); [lia|lia|].
    rewrite Nat2Z.id in Hline'. assert (line' = line) as -> by congruence. lia.
Qed.

Lemma plan_cell_Raise cv col_sun col row dates e :
  1 ≤ toordinal col_sun → toordinal col_sun + 6 ≤ MAXORDINAL → 0 ≤ row < 7 →
  plan_cell cv col_sun col row dates = Raise e → e = IndexError.
Proof.
  intros Hlo Hhi Hrow. unfold plan_cell.
  destruct (PyList.getitem cv row) as [line|e1] eqn:H1; cbn;
    [|intros [= <-]; by eapply getitem_Raise].
  destruct (PyList.getitem line col) as [px|e2] eqn:H2; cbn;
    [|intros [= <-]; by eapply getitem_Raise].
  destruct (truthy px); [|done].
  rewrite add_Ok by (cbn; lia). done.
Qed.

Lemma plan_columns_Raise cv start dates e :
  1 ≤ toordinal start → toordinal start + (7 * 51 + 6) ≤ MAXORDINAL →
  for_each (range 52) (plan_column cv start) dates = Raise e → e = IndexError.
Proof.
  intros Hlo Hhi H.
  eapply (for_each_Raise (λ e, e = IndexError)); [apply (range_bounds 52)| |exact H].
  intros col ds e' Hcol. cbn beta in Hcol.
  rewrite plan_column_eq, add_Ok by (unfold dt.timedelta_weeks; cbn; lia). cbn.
  intros H'.
  eapply (for_each_Raise (λ e, e = IndexError)); [apply (range_bounds 7)| |exact H'].
  intros row ds' e'' Hrow. cbn beta in Hrow. apply plan_cell_Raise; cbn; lia.
Qed.

Lemma plan_dates_covers {tree} (cv : canvas) (w : world tree) :
  displayable (clock w) → covers cv →
  plan_dates cv w
    = (Ok (cell_date (Date (7 * (toordinal (clock w) `div` 7) - 357))
             <$> lit_cells (window cv)), w).
Proof.
  intros Hclock Hcv. rewrite plan_dates_window by done.
  destruct (plan_dates_defined (window cv) w (window_grid cv Hcv) Hclock)
    as [dates Hplan].
  pose proof Hplan as (anchor & Ha & ->)%plan_dates_Ok; [|by apply window_grid].
  destruct Hclock as [Hlo Hhi].
  rewrite leftmost_sunday_defined in Ha by (unfold valid_date; lia).
  by injection Ha as <-.
Qed.

(** X2.  [plan_dates] reads the first 52 entries of the first 7 rows
    of its canvas and nothing else.  For a canvas that has them, and that
    may have more rows and longer rows, it returns the dates of the lit
    cells of that window; for a canvas with fewer than 7 rows, or with one
    of its first 7 rows shorter than 52, it raises [IndexError].  Stated
    for the clocks from 0001-12-30 to 9999-12-25. *)
Theorem plan_dates_canvas_bounds {tree} (cv : canvas) (w : world tree) :
  displayable (clock w) →
  (covers cv →
   ∃ anchor, leftmost_sunday (clock w) = Ok anchor ∧
             plan_dates cv w
               = (Ok (cell_date anchor <$> lit_cells (window cv)), w)) ∧
  (¬ covers cv → plan_dates cv w = (Raise IndexError, w)).
Proof.
  intros Hclock. split.
  - intros Hcv. eexists. split; [|by apply plan_dates_covers].
    destruct Hclock as [Hlo Hhi].
    by rewrite leftmost_sunday_defined by (unfold valid_date; lia).
  - intros Hcv. rewrite plan_dates_eq. destruct Hclock as [Hlo Hhi].
    rewrite leftmost_sunday_defined by (unfold valid_date; lia). cbn.
    destruct (for_each _ _ _) as [dates|e] eqn:H.
    + by apply plan_columns_covers in H.
    + apply plan_columns_Raise in H as ->; [done| |];
        cbn; unfold MAXORDINAL in *; Z.div_mod_to_equations; lia.
Qed.

Lemma plan_dates_canvas_bounds_witness :
  (∃ anchor, leftmost_sunday (Date 739923) = Ok anchor ∧
             plan_dates wide_canvas sample_world
               = (Ok (cell_date anchor <$> lit_cells (window wide_canvas)),
                  sample_world)) ∧
  plan_dates short_canvas sample_world = (Raise IndexError, sample_world).
Proof.
  assert (displayable (clock sample_world)) as Hclock
    by (unfold displayable, MAXORDINAL; simpl; lia).
  split.
  - apply (plan_dates_canvas_bounds wide_canvas sample_world Hclock).
    split; [vm_compute; lia|]. vm_compute. repeat constructor.
  - apply (plan_dates_canvas_bounds short_canvas sample_world Hclock).
    intros [_ H]. vm_compute in H. apply Forall_cons in H as [H _]. lia.
Defined.

(** X3.  The schedule follows the week of [today].  Two runs on days
    of the same week, Sunday to Saturday, have the same outcome; and [n]
    weeks later every date of the schedule is [7 * n] days later. *)
Theorem plan_dates_weekly {tree} (cv : canvas) (w1 w2 : world tree) (n : Z) :
  displayable (clock w1) → displayable (clock w2) →
  (toordinal (clock w1) `div` 7 = toordinal (clock w2) `div` 7 →
   (plan_dates cv w1).1 = (plan_dates cv w2).1) ∧
  (covers cv → toordinal (clock w2) = toordinal (clock w1) + 7 * n →
   ∃ dates, (plan_dates cv w1).1 = Ok dates ∧
            (plan_dates cv w2).1 = Ok (later (7 * n) <$> dates)).
Proof.
  intros H1 H2. split.
  - intros Hweek. rewrite !plan_dates_eq. cbn [fst].
    destruct H1, H2.
    rewrite !leftmost_sunday_defined by (unfold valid_date; lia).
    by rewrite Hweek.
  - intros Hcv Hn. rewrite !plan_dates_covers by done. cbn [fst].
    eexists. split; [done|]. f_equal. rewrite <-list_fmap_compose.
    apply list_fmap_ext. intros _ [col row] _. unfold later, cell_date. cbn.
    f_equal. rewrite Hn. Z.div_mod_to_equations. lia.
Qed.

Lemma plan_dates_weekly_witness :
  (plan_dates sample_canvas sample_world).1
    = (plan_dates sample_canvas saturday_world).1 ∧
  ∃ dates, (plan_dates sample_canvas sample_world).1 = Ok dates ∧
           (plan_dates sample_canvas next_week_world).1
             = Ok (later (7 * 1) <$> dates).
Proof.
  assert (displayable (Date 739923) ∧ displayable (Date 739927)
          ∧ displayable (Date 739930)) as (H1 & H2 & H3)
    by (unfold displayable, MAXORDINAL; simpl; lia).
  split.
  - apply (plan_dates_weekly sample_canvas sample_world saturday_world 0 H1 H2).
    reflexivity.
  - apply (plan_dates_weekly sample_canvas sample_world next_week_world 1 H1 H3).
    + split; [vm_compute; lia|]. vm_compute. repeat constructor.
    + reflexivity.
Defined.

(** ** What the compositor draws *)

Lemma measure_foldl spacing chars width letters :
  foldl (measure spacing) (width, letters) chars
  = (width + (5 + spacing) * Z.of_nat (length (letters_of chars)),
     letters ++ letters_of chars).
Proof.
  revert width letters. induction chars as [|ch chars IH]; intros width letters.
  - cbn. rewrite app_nil_r. f_equal. lia.
  - cbn [foldl]. unfold measure at 2, letters_of. cbn [omap list_omap].
    fold (letters_of chars).
    destruct (FONT_5x7 !! ch) as [g|]; cbn [fst snd].
    + rewrite IH, <-app_assoc. cbn [length app]. f_equal. lia.
    + apply IH.
Qed.

Lemma letters_of_well_formed chars : Forall well_formed (letters_of chars).
Proof.
  unfold letters_of. apply Forall_forall. intros g Hg.
  apply list_elem_of_omap in Hg as (ch & _ & Hch). by eapply font_well_formed.
Qed.

(** [compose_word] as a function of the letters it recognises. *)
Lemma compose_word_traced_letters upper word cols spacing :
  compose_word_traced upper word cols spacing =
  let letters := letters_of (upper word) in
  '(p, _) ← for_each letters
      (λ g '(p, c), p' ← stamp_glyph g c cols p; Ok (p', c + (5 + spacing)))
      (Painting (blank_canvas 7 cols) [],
       start_column cols spacing (length letters));
  Ok p.
Proof.
  unfold compose_word_traced. cbv zeta. rewrite measure_foldl. cbn [app].
  unfold start_column, word_width.
  destruct (letters_of (upper word)) as [|g letters] eqn:Hl.
  - rewrite bool_decide_true by done. done.
  - rewrite bool_decide_false by done. cbn [length].
    replace (0 + (5 + spacing) * Z.of_nat (S (length letters)) - spacing)
      with (5 * Z.of_nat (S (length letters)) + spacing * Z.of_nat (length letters))
      by lia.
    done.
Qed.

Lemma for_each_accumulate {A S T : Type} (Inv : S → Prop) (lit_in : S → T → Prop)
    (add : A → T → Prop) (Q : A → Prop) (xs : list A) (body : A → S → result S) :
  Forall Q xs →
  (∀ x s s1, Q x → Inv s → body x s = Ok s1 →
             Inv s1 ∧ ∀ t, lit_in s1 t ↔ lit_in s t ∨ add x t) →
  ∀ s s2, Inv s → for_each xs body s = Ok s2 →
          Inv s2 ∧ ∀ t, lit_in s2 t ↔ lit_in s t ∨ ∃ x, x ∈ xs ∧ add x t.
Proof.
  intros HQ Hbody. induction HQ as [|x xs Hx _ IH]; intros s s2 Hs.
  - intros [= <-]. split; [done|]. intros t. split; [by left|].
    intros [?|(x & []%elem_of_nil & _)]. done.
  - rewrite for_each_cons. intros (s1 & H1 & H2)%bind_Ok_inv.
    destruct (Hbody x s s1 Hx Hs H1) as [Hs1 Hstep].
    destruct (IH s1 s2 Hs1 H2) as [Hs2 Hrest]. split; [done|].
    intros t. rewrite Hrest, Hstep. split.
    + intros [[?|?]|(y & Hy & ?)]; [by left| |].
      * right. exists x. split; [left|done].
      * right. exists y. split; [by right|done].
    + intros [?|(y & [->|Hy]%elem_of_cons & ?)]; [by left; left|by left; right|].
      right. eauto.
Qed.

Lemma paint_pixel cols p r i q :
  painted cols p → 0 ≤ r < 7 → 0 ≤ i < cols → paint p r i = Ok q →
  ∀ r1 i1, 0 ≤ r1 → 0 ≤ i1 →
    pixel (cells q) r1 i1 = 1 ↔
    pixel (cells p) r1 i1 = 1 ∨ (r1 = r ∧ i1 = i).
Proof.
  intros ([Hlen Hrows] & _ & _) Hr Hi. unfold paint, write_cell.
  destruct (getitem_Ok (cells p) r) as (row & -> & Hrow); [lia|]. cbn.
  assert (Z.of_nat (length row) = cols) as Hl.
  { eapply Forall_forall in Hrows; [done|]. by eapply list_elem_of_lookup_2. }
  rewrite setitem_Ok by lia. cbn. rewrite setitem_Ok by lia. cbn.
  intros [= <-] r1 i1 Hr1 Hi1. cbn [cells]. unfold pixel.
  destruct (decide (Z.to_nat r1 = Z.to_nat r)) as [Hrr|Hrr].
  - rewrite Hrr, list_lookup_insert_eq, Hrow by lia.
    destruct (decide (Z.to_nat i1 = Z.to_nat i)) as [Hii|Hii].
    + rewrite Hii, list_lookup_insert_eq by lia. cbn. split; [right; lia|done].
    + rewrite list_lookup_insert_ne by done. split; [by left|].
      intros [?|[_ ->]]; done.
  - rewrite list_lookup_insert_ne by done. split; [by left|].
    intros [?|[-> _]]; done.
Qed.

Lemma glyph_pixel g r x :
  well_formed g → 0 ≤ r < 7 → 0 ≤ x < 5 →
  ∃ line px, PyList.getitem g r = Ok line ∧ str_getitem line x = Ok px ∧
             glyph_bit g r x = bool_decide (px = "1"%char).
Proof.
  intros [Hg Hlines] Hr Hx.
  destruct (getitem_Ok g r) as (line & Hline & Hlk); [lia|].
  assert (String.length line = 5%nat) as Hl.
  { eapply Forall_forall in Hlines; [done|]. by eapply list_elem_of_lookup_2. }
  unfold str_getitem.
  destruct (getitem_Ok (list_ascii_of_string line) x) as (px & Hpx & Hlk1).
  { replace (length (list_ascii_of_string line)) with (String.length line); [lia|].
    clear. induction line; simpl; congruence. }
  exists line, px. unfold glyph_bit. by rewrite Hlk, Hlk1.
Qed.

Lemma stamp_pixel_spec g c cols r x p q :
  well_formed g → 0 ≤ r < 7 → 0 ≤ x < 5 → painted cols p →
  stamp_pixel g c cols r x p = Ok q →
  painted cols q ∧
  ∀ t, on cols q t ↔
       on cols p t ∨ (in_grid 7 cols t ∧ t = (r, c + x) ∧ glyph_bit g r x).
Proof.
  intros Hg Hr Hx Hp. unfold stamp_pixel.
  destruct (glyph_pixel g r x Hg Hr Hx) as (line & px & -> & Hpx & Hbit). cbn.
  rewrite Hpx. cbn. rewrite Hbit.
  destruct (bool_decide (px = "1"%char)); cbn.
  - destruct (Z.leb_spec 0 (c + x)) as [Hge|Hneg]; cbn;
      [destruct (Z.ltb_spec (c + x) cols) as [Hlt|Hout]; cbn|].
    + intros Hpaint. split.
      * destruct (paint_Ok cols p r (c + x)) as (q1 & Hq & ?); [done|lia|lia|].
        congruence.
      * intros [r1 i1]. unfold on, in_grid. cbn [fst snd].
        assert (0 ≤ r1 → 0 ≤ i1 →
                pixel (cells q) r1 i1 = 1 ↔
                pixel (cells p) r1 i1 = 1 ∨ r1 = r ∧ i1 = c + x) as Hiff.
        { intros. eapply paint_pixel; [exact Hp|lia|split; [exact Hge|exact Hlt]
                                       |exact Hpaint|lia|lia]. }
        split.
        -- intros [Hin Hon]. apply Hiff in Hon as [?|[-> ->]]; [by left|by right|lia|lia].
        -- intros [[Hin Hon]|(Hin & [= -> ->] & _)]; (split; [done|]);
             (apply Hiff; [lia|lia|]); [by left|by right].
    + intros [= <-]. split; [done|]. intros [r1 i1]. unfold on, in_grid.
      cbn [fst snd]. split; [by left|]. intros [?|(? & [= -> ->] & _)]; [done|lia].
    + intros [= <-]. split; [done|]. intros [r1 i1]. unfold on, in_grid.
      cbn [fst snd]. split; [by left|]. intros [?|(? & [= -> ->] & _)]; [done|lia].
  - intros [= <-]. split; [done|]. intros t. split; [by left|].
    intros [?|(_ & _ & [])]. done.
Qed.

Lemma stamp_glyph_spec g c cols p q :
  well_formed g → painted cols p → stamp_glyph g c cols p = Ok q →
  painted cols q ∧
  ∀ t, on cols q t ↔
       on cols p t ∨
       (in_grid 7 cols t ∧ ∃ x, 0 ≤ x < 5 ∧ t.2 = c + x ∧ glyph_bit g t.1 x).
Proof.
  intros Hg Hp Hstamp. unfold stamp_glyph in Hstamp.
  eapply (for_each_accumulate (painted cols) (on cols)
            (λ r t, in_grid 7 cols t ∧ t.1 = r ∧
                    ∃ x, 0 ≤ x < 5 ∧ t.2 = c + x ∧ glyph_bit g r x))
    in Hstamp as [Hq Hspec]; [|apply (range_bounds 7)| |done].
  - split; [done|]. intros t. rewrite Hspec. split.
    + intros [?|(r & _ & ? & <- & ?)]; [by left|by right].
    + intros [?|[Hin ?]]; [by left|]. right. exists t.1.
      split; [apply elem_of_seqZ; destruct Hin; lia|done].
  - intros r s s1 Hr Hs Hrow. cbn beta in Hr.
    eapply (for_each_accumulate (painted cols) (on cols)
              (λ x t, in_grid 7 cols t ∧ t = (r, c + x) ∧ glyph_bit g r x))
      in Hrow as [Hs1 Hspec]; [|apply (range_bounds 5)| |done].
    + split; [done|]. intros t. rewrite Hspec. split.
      * intros [?|(x & Hx%elem_of_seqZ & ? & -> & ?)]; [by left|].
        right. split; [done|]. split; [done|]. exists x. split; [lia|done].
      * intros [?|(? & <- & x & ? & ? & ?)]; [by left|]. right. exists x.
        split; [apply elem_of_seqZ; lia|]. split; [done|]. split; [|done].
        destruct t; cbn in *; congruence.
    + intros x u u1 Hx Hu. cbn beta in Hx. by apply stamp_pixel_spec.
Qed.

Lemma stamp_letters_spec cols spacing letters p c q c1 :
  Forall well_formed letters → painted cols p →
  for_each letters
    (λ g '(p, c), p' ← stamp_glyph g c cols p; Ok (p', c + (5 + spacing)))
    (p, c) = Ok (q, c1) →
  painted cols q ∧
  ∀ t, on cols q t ↔
       on cols p t ∨ (in_grid 7 cols t ∧ stamped letters c spacing t.1 t.2).
Proof.
  intros Hl. revert p c. induction Hl as [|g letters Hg _ IH]; intros p c Hp.
  - intros [= <- <-]. split; [done|]. intros t. split; [by left|].
    intros [?|(_ & k & g & x & Hk & _)]; [done|]. by rewrite lookup_nil in Hk.
  - rewrite for_each_cons. intros ([p1 c2] & H1 & H2)%bind_Ok_inv.
    apply bind_Ok_inv in H1 as (p2 & Hstamp & [= <- <-]).
    apply stamp_glyph_spec in Hstamp as [Hp1 Hspec1]; [|done|done].
    apply IH in H2 as [Hq Hspec]; [|done]. split; [done|].
    intros t. rewrite Hspec, Hspec1. unfold stamped. split.
    + intros [[?|[Hin (x & ? & ? & ?)]]|[Hin (k & g1 & x & ? & ? & ? & ?)]].
      * by left.
      * right. split; [done|]. exists 0%nat, g, x. split; [done|]. split; [done|]. split; [lia|done].
      * right. split; [done|]. exists (S k), g1, x. split; [done|]. split; [done|]. split; [lia|done].
    + intros [?|[Hin (k & g1 & x & Hk & ? & ? & ?)]]; [by left; left|].
      destruct k as [|k]; cbn in Hk.
      * injection Hk as <-. left. right. split; [done|]. exists x.
        split; [done|]. split; [lia|done].
      * right. split; [done|]. exists k, g1, x. split; [done|]. split; [done|]. split; [lia|done].
Qed.

Lemma blank_canvas_pixel rows cols r i : pixel (blank_canvas rows cols) r i = 0.
Proof.
  destruct (blank_canvas_dark rows cols) as [Hdark _]. unfold pixel.
  destruct (blank_canvas rows cols !! Z.to_nat r) as [line|] eqn:Hline; [|done].
  eapply Forall_forall in Hdark; [|by eapply list_elem_of_lookup_2].
  destruct (line !! Z.to_nat i) as [px|] eqn:Hpx; [|done]. cbn.
  eapply Forall_forall in Hdark; [|by eapply list_elem_of_lookup_2]. done.
Qed.

Lemma compose_word_pixels upper word cols spacing cv :
  0 ≤ cols → compose_word upper word cols spacing = Ok cv →
  let letters := letters_of (upper word) in
  is_grid 7 cols cv ∧ binary cv ∧
  ∀ r i, 0 ≤ r < 7 → 0 ≤ i < cols →
    (pixel cv r i = 1 ↔
     stamped letters (start_column cols spacing (length letters)) spacing r i).
Proof.
  intros Hcols. unfold compose_word. rewrite compose_word_traced_letters.
  cbv zeta. intros (p & H & [= <-])%bind_Ok_inv.
  apply bind_Ok_inv in H as ([q c1] & H & [= ->]).
  apply stamp_letters_spec in H as [(Hg & Hb & _) Hspec];
    [|apply letters_of_well_formed|by apply blank_canvas_painted].
  split; [done|]. split; [done|]. intros r i Hr Hi.
  specialize (Hspec (r, i)). unfold on, in_grid in Hspec. cbn [fst snd cells] in Hspec.
  rewrite blank_canvas_pixel in Hspec. split.
  - intros H. destruct Hspec as [[[_ ?]|[_ ?]] _]; done.
  - intros H. destruct Hspec as [_ [_ ?]]; [right|]; done.
Qed.

(** X4.  What [compose_word] draws, for every word, every number of
    columns that is not negative and every spacing, the negative ones that
    make letters overlap included.  It returns a canvas, and a cell of the
    grid holds 1 exactly when a set pixel of one of the recognised letters
    falls on it, letter [k] starting at column
    [start_col + k * (5 + spacing)] where
    [start_col = max(0, (cols - width) // 2)]; every other cell holds 0. *)
Theorem compose_word_draws (upper : pystr → pystr) (word : pystr)
    (total_columns spacing : Z) :
  0 ≤ total_columns →
  let letters := letters_of (upper word) in
  let start := start_column total_columns spacing (length letters) in
  ∃ cv, compose_word upper word total_columns spacing = Ok cv ∧
        ∀ r i, 0 ≤ r < 7 → 0 ≤ i < total_columns →
          (pixel cv r i = 1 ↔ stamped letters start spacing r i) ∧
          (pixel cv r i = 0 ↔ ¬ stamped letters start spacing r i).
Proof.
  intros Hcols letters start. subst letters start.
  destruct (compose_word_traced_painted upper word total_columns spacing Hcols)
    as (p & Hp & _).
  assert (compose_word upper word total_columns spacing = Ok (cells p)) as Hcv.
  { unfold compose_word. by rewrite Hp. }
  exists (cells p). split; [done|]. intros r i Hr Hi.
  destruct (compose_word_pixels upper word total_columns spacing (cells p) Hcols Hcv)
    as ([Hlen Hrows] & Hbin & Hpix).
  specialize (Hpix r i Hr Hi). split; [done|].
  assert (pixel (cells p) r i = 0 ∨ pixel (cells p) r i = 1) as Hbit.
  { unfold pixel.
    destruct (cells p !! Z.to_nat r) as [line|] eqn:Hline; [|by left].
    destruct (line !! Z.to_nat i) as [px|] eqn:Hpx; [|by left]. cbn.
    eapply Forall_forall in Hbin; [|by eapply list_elem_of_lookup_2].
    eapply Forall_forall in Hbin; [|by eapply list_elem_of_lookup_2]. done. }
  rewrite <-Hpix. destruct Hbit as [-> | ->]; split; done.
Qed.

Lemma compose_word_draws_witness :
  ∃ cv, compose_word upper_ascii (text "Nerdlin") 52 1 = Ok cv ∧
        ∀ r i, 0 ≤ r < 7 → 0 ≤ i < 52 →
          (pixel cv r i = 1 ↔
           stamped (letters_of (upper_ascii (text "Nerdlin")))
                   (start_column 52 1 (length (letters_of (upper_ascii (text "Nerdlin")))))
                   1 r i) ∧
          (pixel cv r i = 0 ↔
           ¬ stamped (letters_of (upper_ascii (text "Nerdlin")))
                   (start_column 52 1 (length (letters_of (upper_ascii (text "Nerdlin")))))
                   1 r i).
Proof. apply (compose_word_draws upper_ascii (text "Nerdlin") 52 1). lia. Defined.

Lemma letters_of_filter (chars : pystr) :
  letters_of (filter supported chars) = letters_of chars.
Proof.
  unfold letters_of. induction chars as [|ch chars IH]; [done|].
  cbn [omap list_omap]. destruct (FONT_5x7 !! ch) as [g|] eqn:Hch.
  - rewrite filter_cons_True by (unfold supported; rewrite Hch; eauto).
    cbn [omap list_omap]. by rewrite Hch, IH.
  - rewrite filter_cons_False; [done|].
    unfold supported. rewrite Hch. by intros [? [=]].
Qed.

Lemma supported_upper_case (ch : N) :
  supported ch → ascii_upper ch = ch ∧ (ch < 128)%N.
Proof.
  intros [g Hg]. unfold FONT_5x7 in Hg. apply elem_of_list_to_map_2 in Hg.
  repeat (apply elem_of_cons in Hg as [[= -> _]|Hg]; [by vm_compute|]).
  by apply elem_of_nil in Hg.
Qed.

Lemma ascii_upper_ascii (ch : N) : (ch < 128)%N → (ascii_upper ch < 128)%N.
Proof.
  unfold ascii_upper. intros H.
  destruct ((97 <=? ch)%N && (ch <=? 122)%N); lia.
Qed.

Lemma compose_word_of_letters upper w1 w2 cols spacing :
  letters_of (upper w1) = letters_of (upper w2) →
  compose_word upper w1 cols spacing = compose_word upper w2 cols spacing.
Proof.
  intros H. unfold compose_word. rewrite !compose_word_traced_letters.
  cbv zeta. by rewrite H.
Qed.

(** X5.  [compose_word] ignores the case of the letters and the
    characters that the font does not have: for an ASCII word, with
    [str.upper] acting as ASCII uppercasing, the canvas of the word is the
    canvas of its supported letters, uppercased. *)
Theorem compose_word_ignores_case_and_unsupported (upper : pystr → pystr)
    (word : pystr) (total_columns spacing : Z) :
  upper_spec upper → Forall (λ ch, (ch < 128)%N) word →
  compose_word upper word total_columns spacing
  = compose_word upper (filter supported (ascii_upper <$> word))
                 total_columns spacing.
Proof.
  intros Hup Hword. apply compose_word_of_letters.
  rewrite (Hup word) by done.
  set (l := filter supported (ascii_upper <$> word)).
  assert (Forall (λ ch, ascii_upper ch = ch ∧ (ch < 128)%N) l) as Hl.
  { apply Forall_forall. intros ch [Hch _]%list_elem_of_filter.
    by apply supported_upper_case. }
  rewrite (Hup l) by (eapply Forall_impl; [exact Hl|]; by intros ch [_ ?]).
  replace (ascii_upper <$> l) with l.
  - subst l. by rewrite letters_of_filter.
  - rewrite <-(list_fmap_id l) at 1. apply Forall_fmap_ext_1.
    eapply Forall_impl; [exact Hl|]. by intros ch [-> _].
Qed.

Lemma compose_word_ignores_case_and_unsupported_witness :
  compose_word upper_ascii (text "Nerd-lin 2024!") 52 1
  = compose_word upper_ascii (text "NERDLIN") 52 1.
Proof.
  apply (compose_word_ignores_case_and_unsupported upper_ascii
           (text "Nerd-lin 2024!") 52 1 upper_ascii_spec).
  vm_compute. repeat constructor.
Defined.

(** Every glyph of the font has a set pixel in its first column, in the
    top row, and one in its last column. *)
Lemma font_edges ch g :
  FONT_5x7 !! ch = Some g →
  glyph_bit g 0 0 ∧ ∃ r, 0 ≤ r < 7 ∧ glyph_bit g r 4.
Proof.
  unfold FONT_5x7. intros H%elem_of_list_to_map_2.
  repeat (apply elem_of_cons in H as [[= _ ->]|H];
          [split; [done|]; first [by exists 0 | by exists 1 | by exists 4]|]).
  by apply elem_of_nil in H.
Qed.

Lemma letters_of_font chars k g :
  letters_of chars !! k = Some g → ∃ ch, FONT_5x7 !! ch = Some g.
Proof.
  intros H%list_elem_of_lookup_2. unfold letters_of in H.
  apply list_elem_of_omap in H as (ch & _ & Hch). eauto.
Qed.

(** X6.  Centering.  When the word has a recognised letter, the
    spacing is not negative and the word fits, the word starts at column
    [(cols - width) // 2]; the right margin is as wide as the left one or
    one column wider; no cell outside the columns [start] to
    [start + width - 1] is lit; and the first and the last of these columns
    each have a lit cell, the first one in the top row. *)
Theorem compose_word_centered (upper : pystr → pystr) (word : pystr)
    (total_columns spacing : Z) (cv : canvas) :
  let letters := letters_of (upper word) in
  let width := word_width spacing (length letters) in
  let start := (total_columns - width) `div` 2 in
  letters ≠ [] → 0 ≤ spacing → width ≤ total_columns →
  compose_word upper word total_columns spacing = Ok cv →
  0 ≤ start ∧
  0 ≤ (total_columns - (start + width)) - start ≤ 1 ∧
  (∀ r i, 0 ≤ r < 7 → 0 ≤ i < total_columns → pixel cv r i = 1 →
          start ≤ i < start + width) ∧
  pixel cv 0 start = 1 ∧
  ∃ r, 0 ≤ r < 7 ∧ pixel cv r (start + width - 1) = 1.
Proof.
  intros letters width start Hne Hsp Hfit Hcv.
  assert (0 ≤ total_columns) as Hcols.
  { subst width. destruct (length letters); cbn in Hfit; lia. }
  destruct (compose_word_pixels upper word total_columns spacing cv Hcols Hcv)
    as (_ & _ & Hpix). fold letters in Hpix.
  assert (start_column total_columns spacing (length letters) = start) as Hstart.
  { unfold start_column. fold width. subst start.
    apply Z.max_r. Z.div_mod_to_equations. lia. }
  rewrite Hstart in Hpix.
  destruct letters as [|g0 rest] eqn:Hletters; [done|].
  assert (width = (5 + spacing) * Z.of_nat (length rest) + 5) as Hwidth.
  { subst width. cbn [length word_width]. lia. }
  assert (0 ≤ start ∧ 0 ≤ (total_columns - (start + width)) - start ≤ 1)
    as [H0 Hmargin] by (subst start; Z.div_mod_to_equations; lia).
  clearbody start width.
  split; [done|]. split; [done|]. split.
  - intros r i Hr Hi (k & g & x & Hk & Hx & -> & _)%Hpix; [|done|done].
    apply lookup_lt_Some in Hk. cbn [length] in Hk. nia.
  - split.
    + apply Hpix; [lia|lia|]. exists 0%nat, g0, 0. split; [done|].
      split; [lia|]. split; [lia|].
      destruct (letters_of_font (upper word) 0 g0) as [ch Hch];
        [by fold letters; rewrite Hletters|].
      by apply font_edges in Hch as [? _].
    + destruct (lookup_lt_is_Some_2 (g0 :: rest) (length rest)) as [g Hg];
        [cbn; lia|].
      destruct (letters_of_font (upper word) (length rest) g) as [ch Hch];
        [by fold letters; rewrite Hletters|].
      apply font_edges in Hch as [_ (r & Hr & Hbit)].
      exists r. split; [done|]. apply Hpix; [done|nia|].
      exists (length rest), g, 4. split; [done|]. split; [lia|]. split; [lia|done].
Qed.

Lemma compose_word_centered_witness :
  ∃ cv, compose_word upper_ascii (text "NERDLIN") 52 1 = Ok cv ∧
   0 ≤ 5 ∧ 0 ≤ (52 - (5 + 41)) - 5 ≤ 1 ∧
   (∀ r i, 0 ≤ r < 7 → 0 ≤ i < 52 → pixel cv r i = 1 → 5 ≤ i < 5 + 41) ∧
   pixel cv 0 5 = 1 ∧ ∃ r, 0 ≤ r < 7 ∧ pixel cv r (5 + 41 - 1) = 1.
Proof.
  destruct (compose_word_canvas upper_ascii (text "NERDLIN")) as (cv & Hcv & _).
  exists cv. split; [exact Hcv|].
  apply (compose_word_centered upper_ascii (text "NERDLIN") 52 1 cv);
    [by vm_compute|lia|by vm_compute|exact Hcv].
Defined.

(** ** Reading the word back *)

Lemma binary_pixel (cv : canvas) (r i : Z) :
  binary cv → pixel cv r i = 0 ∨ pixel cv r i = 1.
Proof.
  intros Hbin. unfold pixel.
  destruct (cv !! Z.to_nat r) as [line|] eqn:Hline; [|by left].
  destruct (line !! Z.to_nat i) as [px|] eqn:Hpx; [|by left]. cbn.
  eapply Forall_forall in Hbin; [|by eapply list_elem_of_lookup_2].
  eapply Forall_forall in Hbin; [|by eapply list_elem_of_lookup_2]. done.
Qed.

Lemma slot_unique (pitch : Z) (k1 k : nat) (x1 x : Z) :
  0 ≤ x1 < pitch → 0 ≤ x < pitch →
  Z.of_nat k1 * pitch + x1 = Z.of_nat k * pitch + x → k1 = k ∧ x1 = x.
Proof.
  intros H1 H2 Heq.
  destruct (Z.div_mod_unique pitch (Z.of_nat k1) (Z.of_nat k) x1 x) as [Hk Hx];
    [by left|by left|lia|]. split; [lia|done].
Qed.

(** X7.  The letters can be read back from the canvas.  For a
    spacing that is not negative, the cell at row [r] and column [x] of
    the slot of letter [k] holds the pixel of its glyph, and the [spacing]
    columns after each letter are unlit, as far as these columns are on
    the canvas.  A word as wide as the canvas, or wider, starts at column
    0 and loses what does not fit on the right. *)
Theorem compose_word_reads_back (upper : pystr → pystr) (word : pystr)
    (total_columns spacing : Z) :
  0 ≤ total_columns → 0 ≤ spacing →
  let letters := letters_of (upper word) in
  let width := word_width spacing (length letters) in
  let start := start_column total_columns spacing (length letters) in
  ∃ cv, compose_word upper word total_columns spacing = Ok cv ∧
    (total_columns ≤ width → start = 0) ∧
    (∀ (k : nat) g r x, letters !! k = Some g → 0 ≤ r < 7 → 0 ≤ x < 5 →
       start + Z.of_nat k * (5 + spacing) + x < total_columns →
       pixel cv r (start + Z.of_nat k * (5 + spacing) + x)
       = if glyph_bit g r x then 1 else 0) ∧
    (∀ (k : nat) r x, (k < length letters)%nat → 0 ≤ r < 7 →
       5 ≤ x < 5 + spacing →
       start + Z.of_nat k * (5 + spacing) + x < total_columns →
       pixel cv r (start + Z.of_nat k * (5 + spacing) + x) = 0).
Proof.
  intros Hcols Hsp letters width start.
  destruct (compose_word_traced_painted upper word total_columns spacing Hcols)
    as (p & Hp & _).
  assert (compose_word upper word total_columns spacing = Ok (cells p)) as Hcv.
  { unfold compose_word. by rewrite Hp. }
  exists (cells p). split; [done|].
  destruct (compose_word_pixels upper word total_columns spacing (cells p) Hcols Hcv)
    as (_ & Hbin & Hpix). fold letters start in Hpix.
  assert (0 ≤ start) as H0 by (subst start; unfold start_column; lia).
  split.
  { intros Hwide. subst start. unfold start_column. fold width.
    apply Z.max_l. Z.div_mod_to_equations. lia. }
  clearbody start. split.
  - intros k g r x Hk Hr Hx Hi.
    specialize (Hpix r (start + Z.of_nat k * (5 + spacing) + x) Hr).
    destruct (glyph_bit g r x) eqn:Hbit.
    + apply Hpix; [nia|]. exists k, g, x.
      split; [done|]. split; [done|]. split; [done|]. by rewrite Hbit.
    + destruct (binary_pixel (cells p) r
                  (start + Z.of_nat k * (5 + spacing) + x) Hbin)
        as [H|H]; [done|]. exfalso.
      apply Hpix in H as (k1 & g1 & x1 & Hk1 & Hx1 & Heq & Hbit1); [|nia].
      destruct (slot_unique (5 + spacing) k1 k x1 x) as [-> ->]; [lia|lia|lia|].
      assert (g1 = g) as -> by congruence.
      by rewrite Hbit in Hbit1.
  - intros k r x Hk Hr Hx Hi.
    destruct (binary_pixel (cells p) r
                (start + Z.of_nat k * (5 + spacing) + x) Hbin)
      as [H|H]; [done|]. exfalso.
    apply (Hpix r _ Hr) in H as (k1 & g1 & x1 & Hk1 & Hx1 & Heq & _); [|nia].
    destruct (slot_unique (5 + spacing) k1 k x1 x) as [_ ->]; lia.
Qed.

Lemma compose_word_reads_back_witness :
  ∃ cv, compose_word upper_ascii (text "Nerdlin") 20 1 = Ok cv ∧
    (20 ≤ word_width 1 (length (letters_of (upper_ascii (text "Nerdlin")))) →
     start_column 20 1 (length (letters_of (upper_ascii (text "Nerdlin")))) = 0) ∧
    (∀ (k : nat) g r x,
       letters_of (upper_ascii (text "Nerdlin")) !! k = Some g →
       0 ≤ r < 7 → 0 ≤ x < 5 →
       start_column 20 1 (length (letters_of (upper_ascii (text "Nerdlin"))))
         + Z.of_nat k * (5 + 1) + x < 20 →
       pixel cv r
         (start_column 20 1 (length (letters_of (upper_ascii (text "Nerdlin"))))
          + Z.of_nat k * (5 + 1) + x)
       = if glyph_bit g r x then 1 else 0) ∧
    (∀ (k : nat) r x,
       (k < length (letters_of (upper_ascii (text "Nerdlin"))))%nat →
       0 ≤ r < 7 → 5 ≤ x < 5 + 1 →
       start_column 20 1 (length (letters_of (upper_ascii (text "Nerdlin"))))
         + Z.of_nat k * (5 + 1) + x < 20 →
       pixel cv r
         (start_column 20 1 (length (letters_of (upper_ascii (text "Nerdlin"))))
          + Z.of_nat k * (5 + 1) + x) = 0).
Proof.
  apply (compose_word_reads_back upper_ascii (text "Nerdlin") 20 1); lia.
Defined.

(** ** From the word to the schedule *)

Lemma binary_lit (cv : canvas) (col row : Z) :
  binary cv → lit cv (col, row) ↔ pixel cv row col = 1.
Proof.
  intros Hbin. unfold lit, truthy, pixel. cbn [fst snd].
  destruct (cv !! Z.to_nat row) as [line|] eqn:Hline; [|done].
  destruct (line !! Z.to_nat col) as [px|] eqn:Hpx; [|done]. cbn.
  eapply Forall_forall in Hbin; [|by eapply list_elem_of_lookup_2].
  eapply Forall_forall in Hbin; [|by eapply list_elem_of_lookup_2].
  by destruct Hbin as [-> | ->].
Qed.

(** X8.  The compositor followed by the planner, as [main] calls
    them: a date is in the schedule of a word exactly when it is the day
    [anchor + 7 * column + row] of a cell of the 52 weeks that is under a
    set pixel of one of the letters of the word. *)
Theorem word_schedule {tree} (upper : pystr → pystr) (word : pystr)
    (w : world tree) :
  displayable (clock w) →
  let letters := letters_of (upper word) in
  let start := start_column 52 1 (length letters) in
  ∃ cv anchor dates,
    compose_word upper word 52 1 = Ok cv ∧
    leftmost_sunday (clock w) = Ok anchor ∧
    plan_dates cv w = (Ok dates, w) ∧
    ∀ d, d ∈ dates ↔
         ∃ col row, 0 ≤ col < 52 ∧ 0 ≤ row < 7 ∧
                    stamped letters start 1 row col ∧
                    d = cell_date anchor (col, row).
Proof.
  intros Hclock letters start.
  destruct (compose_word_canvas upper word) as (cv & Hcv & Hg).
  destruct (plan_dates_defined cv w Hg Hclock) as [dates Hplan].
  pose proof Hplan as (anchor & Hanchor & ->)%plan_dates_Ok; [|done].
  destruct (compose_word_pixels upper word 52 1 cv) as (_ & Hbin & Hpix);
    [lia|done|].
  exists cv, anchor, (cell_date anchor <$> lit_cells cv).
  split; [done|]. split; [done|]. split; [done|].
  intros d. rewrite list_elem_of_fmap. split.
  - intros ([col row] & -> & [[Hcol Hrow] Hlit]%lit_cells_elem_of).
    exists col, row. split; [done|]. split; [done|]. split; [|done].
    apply Hpix; [done|done|]. by apply binary_lit.
  - intros (col & row & Hcol & Hrow & Hst & ->). exists (col, row).
    split; [done|]. apply lit_cells_elem_of. split; [done|].
    apply binary_lit; [done|]. by apply Hpix.
Qed.

Lemma word_schedule_witness :
  ∃ cv anchor dates,
    compose_word upper_ascii (text "Nerdlin") 52 1 = Ok cv ∧
    leftmost_sunday (clock sample_world) = Ok anchor ∧
    plan_dates cv sample_world = (Ok dates, sample_world) ∧
    ∀ d, d ∈ dates ↔
         ∃ col row, 0 ≤ col < 52 ∧ 0 ≤ row < 7 ∧
                    stamped (letters_of (upper_ascii (text "Nerdlin")))
                      (start_column 52 1
                         (length (letters_of (upper_ascii (text "Nerdlin")))))
                      1 row col ∧
                    d = cell_date anchor (col, row).
Proof.
  apply (word_schedule upper_ascii (text "Nerdlin") sample_world).
  unfold displayable, MAXORDINAL. simpl. lia.
Defined.

(** ** The commit creator *)

Section Commits.
Context {tree : Type}.
Variable upper : pystr → pystr.
Variable isoformat : date → pystr.
Variable as_posix : pystr → pystr.
Variable files : pathlib tree.
Variable shell : pystr → gmap pystr pystr → tree → Z * tree.

Let commit := make_commit_for_date isoformat as_posix files shell.
Let program := main upper isoformat as_posix files shell.

Lemma for_each_M_cons {A : Type} (x : A) xs (body : A → M tree ()) (w : world tree) :
  for_each_M (x :: xs) body w =
  match body x w with
  | (Ok _, w1) => for_each_M xs body w1
  | (Raise e, w1) => (Raise e, w1)
  end.
Proof. done. Qed.

Lemma commands_of_app (s1 s2 : list step) :
  commands_of (s1 ++ s2) = commands_of s1 ++ commands_of s2.
Proof. unfold commands_of. by rewrite bind_app. Qed.

Lemma commands_of_cons (s : step) (steps : list step) :
  commands_of (s :: steps) = command_of s ++ commands_of steps.
Proof. done. Qed.

(** Steps after steps. *)
Lemma replay_app (s1 s2 : list step) (t : tree) :
  replay files shell (s1 ++ s2) t =
  match replay files shell s1 t with
  | (Ok _, (c1, t1)) =>
      let '(r, (c2, t2)) := replay files shell s2 t1 in (r, (c1 ++ c2, t2))
  | (Raise e, out) => (Raise e, out)
  end.
Proof.
  revert t. induction s1 as [|s s1 IH]; intros t.
  - cbn. by destruct (replay files shell s2 t) as [r [c2 t2]].
  - cbn [app replay]. destruct (step_outcome files shell s t) as [[[]|e] t1].
    + rewrite IH. destruct (replay files shell s1 t1) as [[[]|e] [c1 t2]]; [|done].
      destruct (replay files shell s2 t2) as [r [c2 t3]]. by rewrite app_assoc.
    + destruct s; try done. by destruct (file_close files path t1) as [[[]|e1] t2].
Qed.

(** Steps that succeed are all performed. *)
Lemma replay_performs (steps : list step) (t t1 : tree) :
  performs files shell steps t t1 →
  replay files shell steps t = (Ok (), (commands_of steps, t1)).
Proof.
  revert t. induction steps as [|s steps IH]; intros t; cbn [performs replay].
  - by intros ->.
  - intros (t2 & -> & H). by rewrite (IH _ H).
Qed.

(** The first step that fails ends the run. *)
Lemma replay_stopped (w : world tree) (steps : list step) (k : nat) (s : step)
    (t1 : tree) (e : exn) (t2 : tree) :
  steps !! k = Some s →
  performs files shell (take k steps) (worktree w) t1 →
  step_outcome files shell s t1 = (Raise e, t2) →
  finish w (replay files shell steps (worktree w))
  = stopped_at files w (take k steps) s e t2.
Proof.
  intros Hk Hbefore Hs.
  rewrite <-(take_drop_middle steps k s Hk) at 1.
  rewrite replay_app, (replay_performs _ _ _ Hbefore). cbn [replay].
  rewrite Hs. unfold finish, stopped_at.
  destruct s; cbn [fst snd command_of];
    rewrite ?commands_of_app, ?commands_of_cons; cbn [command_of commands_of mbind];
    try reflexivity.
  destruct (file_close files path t2) as [[[]|e1] t3]; cbn [fst snd];
    by rewrite app_nil_r.
Qed.

(** One commit is its six steps. *)
Lemma commit_replay d name email message path allow (w : world tree) :
  commit d name email message path allow w =
  finish w (replay files shell
              (commit_steps isoformat as_posix files d name email message path
                            allow (environ w))
              (worktree w)).
Proof.
  unfold commit, make_commit_for_date, write_log, on_tree, run.
  unfold mbind, M_bind, mret, M_ret, finish.
  unfold commit_steps, log_line, add_cmd, commit_cmd, noon, commit_env.
  cbn [replay step_outcome command_of].
  destruct (path_mkdir files _ _) as [[[]|e] t1]; [|by cbn [fst snd]; rewrite app_nil_r].
  cbn [worktree clock environ stdout commands].
  destruct (path_open files _ _) as [[[]|e] t2]; [|by cbn [fst snd]; rewrite app_nil_r].
  cbn [worktree clock environ stdout commands].
  destruct (file_write files _ _ _) as [[[]|e] t3];
    cbn [worktree clock environ stdout commands].
  2: { destruct (file_close files _ _) as [[[]|e1] t4]; cbn [fst snd];
       by rewrite app_nil_r. }
  destruct (file_close files _ _) as [[[]|e] t4]; [|by cbn [fst snd]; rewrite app_nil_r].
  cbn [worktree clock environ stdout commands default].
  destruct (shell _ _ t4) as [s1 t5]. destruct (s1 =? 0); [|by cbn [fst snd app]].
  cbn [worktree clock environ stdout commands default].
  rewrite <-!app_assoc.
  destruct (shell _ _ t5) as [s2 t6]. cbn [app fst snd].
  by destruct (s2 =? 0).
Qed.

Lemma finish_invariant (w : world tree) out :
  clock (finish w out).2 = clock w ∧ environ (finish w out).2 = environ w ∧
  stdout (finish w out).2 = stdout w.
Proof. done. Qed.

(** X9.  One commit, step by step.  [make_commit_for_date] leaves the
    clock, the environment of the process and the output alone.  Its
    steps are: create the directory of the log, open the log, write the
    line, close the log, [git add], [git commit].  When all six succeed
    it returns normally and has run the two commands.  The first step
    that fails ends it with the exception of that step: what the steps
    before have done stays done, the working tree is as the failing step
    left it, so a directory created before a failing [open] stays
    created, and no later step is performed; only a log that could not be
    written is still closed, and an exception of closing replaces the one
    of writing.  A command fails when its status is not 0, with
    [CalledProcessError] of that status, so after a failing [git add] no
    [git commit] is run.  [git commit] runs in a copy
    of the environment in which the author and committer dates are noon
    UTC of the date and the author and committer names and emails are the
    given ones, every other variable being as in the environment of the
    process. *)
Theorem make_commit_for_date_steps d name email message path allow
    (w : world tree) :
  let out := commit d name email message path allow w in
  let steps := commit_steps isoformat as_posix files d name email message path
                            allow (environ w) in
  let env := commit_env name email (noon isoformat d) (environ w) in
  (clock out.2 = clock w ∧ environ out.2 = environ w ∧ stdout out.2 = stdout w) ∧
  (∀ t1, performs files shell steps (worktree w) t1 →
         out = (Ok (),
                World (clock w) (environ w) (stdout w)
                      (commands w ++ commands_of steps) t1)) ∧
  (∀ k s t1 e t2,
     steps !! k = Some s →
     performs files shell (take k steps) (worktree w) t1 →
     step_outcome files shell s t1 = (Raise e, t2) →
     out = stopped_at files w (take k steps) s e t2) ∧
  commands_of steps
    = [add_cmd as_posix path;
       commit_cmd isoformat message d
         ++ (if allow then text " --allow-empty" else [])] ∧
  env !! text "GIT_AUTHOR_DATE" = Some (noon isoformat d) ∧
  env !! text "GIT_COMMITTER_DATE" = Some (noon isoformat d) ∧
  env !! text "GIT_AUTHOR_NAME" = Some name ∧
  env !! text "GIT_AUTHOR_EMAIL" = Some email ∧
  env !! text "GIT_COMMITTER_NAME" = Some name ∧
  env !! text "GIT_COMMITTER_EMAIL" = Some email ∧
  (∀ k, k ∉ commit_variables → env !! k = environ w !! k).
Proof.
  intros out steps env. subst out. rewrite commit_replay. fold steps.
  split; [apply finish_invariant|].
  split. { intros t1 H. by rewrite (replay_performs _ _ _ H). }
  split. { intros k s t1 e t2. apply replay_stopped. }
  split; [done|]. subst env. unfold commit_env.
  split; [|split; [|split; [|split; [|split; [|split]]]]].
  all: try (rewrite ?lookup_insert_eq;
            repeat (rewrite lookup_insert_ne by (by vm_compute));
            by rewrite ?lookup_insert_eq).
  intros k Hk. unfold commit_variables in Hk.
  repeat (rewrite lookup_insert_ne; [|intros <-; apply Hk; set_solver]).
  done.
Qed.
End Commits.

(** ** A run that applies *)

Section Apply.
Context {tree : Type}.
Variable upper : pystr → pystr.
Variable isoformat : date → pystr.
Variable as_posix : pystr → pystr.
Variable files : pathlib tree.
Variable shell : pystr → gmap pystr pystr → tree → Z * tree.

Let commit := make_commit_for_date isoformat as_posix files shell.
Let program := main upper isoformat as_posix files shell.

(** The program with [--apply] and an author, after the report. *)
Lemma main_apply (a : args) (w : world tree) (author : pystr) :
  apply a = true → author ≠ [] → author_of a w = Some author →
  program a w =
    match compose_word upper (word a) 52 1 with
    | Raise e => (Raise e, w)
    | Ok cv =>
        match plan_dates cv w with
        | (Raise e, w1) => (Raise e, w1)
        | (Ok dates, w1) =>
            let n := Z.of_nat (length dates) in
            let w2 := printed w1 (report_line n (n * intensity a)) in
            match run shell check_cmd None w2 with
            | (Raise e, w3) => (Raise e, w3)
            | (Ok _, w3) =>
                match for_each_M dates (λ d,
                        for_each_M (range (intensity a)) (λ _,
                          commit d (name a) author (message_of a) (file a) false))
                      w3 with
                | (Raise e, w4) => (Raise e, w4)
                | (Ok _, w4) =>
                    if push a then
                      match run shell push_cmd None w4 with
                      | (Raise e, w5) => (Raise e, w5)
                      | (Ok _, w5) => (Ok (), w5)
                      end
                    else (Ok (), w4)
                end
            end
        end
    end.
Proof.
  intros Ha Hne Hauthor. unfold program, main, mbind, M_bind, mret, M_ret, lift.
  destruct (compose_word upper (word a) 52 1) as [cv|e]; [|done].
  destruct (plan_dates cv w) as [[dates|e] w1] eqn:Hplan; [|done].
  assert (w1 = w) as -> by (by rewrite plan_dates_eq in Hplan; injection Hplan).
  cbv zeta. unfold print, environ_get, printed. rewrite Ha. cbn [negb environ].
  unfold author_of in Hauthor. rewrite Hauthor.
  destruct author as [|c author]; [done|]. cbn [py_or py_not default].
  fold check_cmd push_cmd (message_of a).
  destruct (run shell check_cmd None _) as [[?|e] w3]; [|done].
  fold commit.
  destruct (for_each_M dates _ w3) as [[?|e] w4]; [|done].
  destruct (push a); [|done].
  destruct (run shell push_cmd None w4) as [[?|e] w5]; done.
Qed.

(** A loop is the steps of its rounds. *)
Lemma for_each_M_replay {A : Type} (steps : A → list step) (xs : list A)
    (body : A → M tree ()) (env : gmap pystr pystr) (w : world tree) :
  (∀ x w, environ w = env →
          body x w = finish w (replay files shell (steps x) (worktree w))) →
  environ w = env →
  for_each_M xs body w
  = finish w (replay files shell (xs ≫= steps) (worktree w)).
Proof.
  intros Hbody. revert w. induction xs as [|x xs IH]; intros w Henv.
  - cbn. unfold finish. cbn [fst snd]. rewrite app_nil_r. by destruct w.
  - rewrite for_each_M_cons, bind_cons, replay_app, Hbody by done.
    destruct (replay files shell (steps x) (worktree w)) as [[[]|e] [c1 t1]];
      [|done].
    unfold finish at 1. cbn [fst snd]. rewrite IH by done.
    cbn [worktree].
    destruct (replay files shell (xs ≫= steps) t1) as [r [c2 t2]].
    unfold finish. cbn [fst snd clock environ stdout commands].
    by rewrite app_assoc.
Qed.

(** A run with [--apply] is its report and then its steps. *)
Lemma main_replay (a : args) (w : world tree) (author : pystr) :
  displayable (clock w) →
  apply a = true → author ≠ [] → author_of a w = Some author →
  ∃ cv anchor,
    compose_word upper (word a) 52 1 = Ok cv ∧
    leftmost_sunday (clock w) = Ok anchor ∧
    let n := Z.of_nat (lit_count cv) in
    program a w =
      finish (printed w (report_line n (n * intensity a)))
        (replay files shell
           (script isoformat as_posix files a author (environ w)
                   (cell_date anchor <$> lit_cells cv))
           (worktree w)).
Proof.
  intros Hclock Ha Hne Hauthor.
  destruct (planned_count upper (word a) w Hclock) as (cv & dates & Hcv & Hplan & Hn).
  destruct (compose_word_canvas upper (word a)) as (cv1 & Hcv1 & Hg).
  assert (cv1 = cv) as -> by congruence.
  pose proof Hplan as (anchor & Hanchor & Hdates)%plan_dates_Ok; [|done].
  exists cv, anchor. split; [done|]. split; [done|]. cbv zeta.
  rewrite (main_apply a w author) by done.
  rewrite Hcv, Hplan. cbv zeta. rewrite Hn, <-Hdates.
  set (w2 := printed w _).
  unfold script. cbn [replay step_outcome]. unfold run at 1.
  change (worktree w2) with (worktree w).
  change (default (environ w2) None) with (environ w).
  destruct (shell check_cmd (environ w) (worktree w)) as [s0 t0].
  destruct (s0 =? 0); [|by unfold finish; cbn [fst snd command_of]].
  set (w3 := World _ _ _ _ t0).
  rewrite (for_each_M_replay
             (λ d, range (intensity a) ≫= λ _,
                commit_steps isoformat as_posix files d (name a) author
                             (message_of a) (file a) false (environ w))
             dates _ (environ w) w3); [|
    |done].
  2: { intros d w4 H4.
       apply (for_each_M_replay
                (λ _, commit_steps isoformat as_posix files d (name a) author
                        (message_of a) (file a) false (environ w))
                (range (intensity a)) _ (environ w) w4); [|done].
       intros _ w5 H5. unfold commit. rewrite commit_replay. by rewrite H5. }
  rewrite replay_app. change (worktree w3) with t0.
  subst w3 w2. unfold printed, finish.
  destruct (replay files shell (dates ≫= _) t0) as [[[]|e] [c1 t1]];
    cbn [fst snd clock environ stdout commands worktree command_of app].
  - destruct (push a).
    + cbn [replay step_outcome]. unfold run.
      cbn [default environ worktree clock stdout commands].
      destruct (shell push_cmd (environ w) t1) as [s2 t2].
      destruct (s2 =? 0);
        cbn [fst snd clock environ stdout commands worktree command_of app];
        by rewrite <-?app_assoc.
    + cbn [replay fst snd]. by rewrite app_nil_r, <-?app_assoc.
  - by rewrite <-?app_assoc.
Qed.

Lemma length_bind_const {A B : Type} (xs : list A) (f : A → list B) (n : nat) :
  (∀ x, length (f x) = n) → length (xs ≫= f) = (length xs * n)%nat.
Proof.
  intros Hf. induction xs as [|x xs IH]; [done|].
  rewrite bind_cons, length_app, Hf, IH. cbn. lia.
Qed.

Lemma commands_of_bind {A : Type} (xs : list A) (f : A → list step) :
  commands_of (xs ≫= f) = xs ≫= λ x, commands_of (f x).
Proof.
  induction xs as [|x xs IH]; [done|].
  by rewrite !bind_cons, commands_of_app, IH.
Qed.

(** The commands of a run. *)
Lemma commands_of_script (a : args) (author : pystr) (env : gmap pystr pystr)
    (dates : list date) :
  commands_of (script isoformat as_posix files a author env dates)
  = [check_cmd]
      ++ (dates ≫= λ d, range (intensity a) ≫= λ _,
            [add_cmd as_posix (file a); commit_cmd isoformat (message_of a) d])
      ++ (if push a then [push_cmd] else []).
Proof.
  unfold script. rewrite commands_of_cons, commands_of_app, commands_of_bind.
  cbn [command_of]. f_equal. f_equal.
  - apply list_bind_ext; [|done]. intros d. rewrite commands_of_bind.
    apply list_bind_ext; [|done]. intros _.
    unfold commit_steps, commands_of. cbn. by rewrite app_nil_r.
  - by destruct (push a).
Qed.




(** A loop whose inner loop has nothing to run does nothing. *)
Lemma for_each_M_idle {A B : Type} (xs : list A) (body : A → B → M tree ())
    (w : world tree) :
  for_each_M xs (λ x, for_each_M [] (body x)) w = (Ok (), w).
Proof. induction xs as [|x xs IH]; [done|]. by rewrite for_each_M_cons. Qed.

End Apply.

(** *** Sample runs *)

Lemma make_commit_for_date_steps_witness :
  make_commit_for_date ordinal_format id keep_text counting_shell
    (Date 739564) (text "Nerdlin") sample_author (text "I pixel")
    (text "art/log.txt") false fresh_world
  = (Ok (),
     World (Date 739923) ∅ [] 
           [add_cmd id (text "art/log.txt");
            commit_cmd ordinal_format (text "I pixel") (Date 739564) ++ []]
           2%nat) ∧
  make_commit_for_date ordinal_format id locked_files counting_shell
    (Date 739564) (text "Nerdlin") sample_author (text "I pixel")
    (text "art/log.txt") false fresh_world
  = (Raise OSError, World (Date 739923) ∅ [] [] 1%nat).
Proof.
  split.
  - destruct (make_commit_for_date_steps ordinal_format id keep_text
                counting_shell (Date 739564) (text "Nerdlin") sample_author
                (text "I pixel") (text "art/log.txt") false fresh_world)
      as (_ & H & _).
    apply (H 2%nat).
    do 6 (eexists; split; [reflexivity|]). reflexivity.
  - destruct (make_commit_for_date_steps ordinal_format id locked_files
                counting_shell (Date 739564) (text "Nerdlin") sample_author
                (text "I pixel") (text "art/log.txt") false fresh_world)
      as (_ & _ & H & _).
    apply (H 1%nat (Open (text "art/log.txt")) 1%nat OSError 1%nat).
    + reflexivity.
    + eexists. split; reflexivity.
    + reflexivity.
Defined.




